(** * Collection index generation (mitreattack/navlayers/collections/col_to_index.py)

    A shallow embedding of [CollectionToIndex.generate_index] and
    [CollectionToIndex.extract_collection], together with the properties of
    the merge pipeline: version ordering, provenance of [created], the index
    timestamps, the directory scan, and the behaviour on the inputs the code
    does not handle.

    Conventions of the embedding.
    - Python strings are [string]; the value [isoparse s] of a timestamp string
      is an integer instant ([Z]); [isoparse] and [isoformat] belong to
      dateutil / datetime and are parameters of the development.  [isoparse]
      is total here and instants are always comparable: timestamps that do
      not parse, or that mix naive and aware datetimes, are outside the model.
    - The collections dict is an association list in insertion order (Python
      dicts iterate in insertion order, and [list(collections.values())] is
      part of the result).
    - Bundles handed in by the caller are Python objects that the function
      mutates: they live in a store ([gmap loc Bundle]) and the [bundles]
      argument is a list of references into it.
    - Exceptions are values of [py_error]; printing, directory listing and
      file opening are recorded in a trace of [event]s.  The progress bars of
      tqdm are not recorded. *)

From Stdlib Require Import ZArith Ascii String DecimalString List Sorted Permutation Lia Bool.
From stdpp Require Import gmap strings.

Local Open Scope Z_scope.
Local Open Scope string_scope.
Local Open Scope list_scope.

(** ** Data model *)

(** A STIX object as the code reads it: [x["type"]], and for collection
    objects the keys [id], [created], [modified], [x_mitre_version], [name]
    and [description].  Objects are taken to carry every key the code reads. *)
Record StixObject := mkStixObject {
  o_type : string;
  o_id : string;
  o_created : string;
  o_modified : string;
  o_x_mitre_version : string;
  o_name : string;
  o_description : string
}.

(** One entry of [collection["versions"]] while the table is being built
    (lines 109-115): [name] and [description] are still present. *)
Record Version := mkVersion {
  v_version : string;
  v_url : string;
  v_modified : string;
  v_name : string;
  v_description : string
}.

(** One value of the [collections] dict (lines 101-105). *)
Record Collection := mkCollection {
  c_id : string;
  c_created : string;
  c_versions : list Version
}.

(** The [collections] dict: STIX id -> collection, in insertion order. *)
Definition table := list (string * Collection).

(** A version entry of the output, after [del version["name"]] and
    [del version["description"]] (lines 76-77). *)
Record IndexVersion := mkIndexVersion {
  iv_version : string;
  iv_url : string;
  iv_modified : string
}.

(** A collection of the output, after lines 65-66 added [name] and
    [description]. *)
Record IndexCollection := mkIndexCollection {
  ic_id : string;
  ic_created : string;
  ic_versions : list IndexVersion;
  ic_name : string;
  ic_description : string
}.

(** The dict returned at lines 79-86. *)
Record Index := mkIndex {
  i_id : string;
  i_name : string;
  i_description : string;
  i_created : string;
  i_modified : string;
  i_collections : list IndexCollection
}.

(** Python exceptions the function can raise. *)
Inductive py_error :=
| AttributeError
| IndexError
| FileNotFoundError
| JSONDecodeError.

Inductive result (A : Type) :=
| Ok (a : A)
| Raise (e : py_error).
Arguments Ok {A} a.
Arguments Raise {A} e.

(** ** The table as a dict *)

Definition is_collection (x : StixObject) : bool :=
  String.eqb (o_type x) "x-mitre-collection".

(** [collections[k]] *)
Fixpoint table_get (k : string) (t : table) : option Collection :=
  match t with
  | [] => None
  | (k', c) :: t' => if String.eqb k k' then Some c else table_get k t'
  end.

(** [k in collections] *)
Definition table_mem (k : string) (t : table) : bool :=
  match table_get k t with Some _ => true | None => false end.

(** In-place update of the value stored under [k]. *)
Fixpoint table_alter (f : Collection -> Collection) (k : string) (t : table) : table :=
  match t with
  | [] => []
  | (k', c) :: t' =>
      if String.eqb k k' then (k', f c) :: t' else (k', c) :: table_alter f k t'
  end.

(** [list(collections.values())] *)
Definition table_values (t : table) : list Collection := List.map snd t.

(** ** The version filename pattern (line 30)

    [re.compile("(\w+-)+(\d\.?)+.json")] as a regular expression over
    characters, and [version_regex.match(fname)], which succeeds when some
    prefix of [fname] belongs to the language of the pattern ([re.match]
    anchors at the start of the string only).  File names are taken to be
    ASCII: [\w] is [[a-zA-Z0-9_]] and [\d] is [[0-9]] there. *)

Inductive char_class :=
| CWord               (* \w *)
| CDigit              (* \d *)
| CLit (a : ascii)    (* a literal character, also an escaped one such as \. *)
| CDot.               (* . : any character except a newline *)

Inductive regex :=
| RNone
| REps
| RChar (c : char_class)
| RSeq (r1 r2 : regex)
| RAlt (r1 r2 : regex)
| RStar (r : regex).

Definition RPlus (r : regex) : regex := RSeq r (RStar r).
Definition ROpt (r : regex) : regex := RAlt r REps.

Fixpoint RLit (s : string) : regex :=
  match s with
  | EmptyString => REps
  | String a s' => RSeq (RChar (CLit a)) (RLit s')
  end.

Definition is_digit (a : ascii) : bool :=
  let n := nat_of_ascii a in (Nat.leb 48 n && Nat.leb n 57)%bool.

Definition is_word (a : ascii) : bool :=
  let n := nat_of_ascii a in
  (is_digit a || (Nat.leb 65 n && Nat.leb n 90) || (Nat.leb 97 n && Nat.leb n 122)
   || Nat.eqb n 95)%bool.

Definition class_matches (c : char_class) (a : ascii) : bool :=
  match c with
  | CWord => is_word a
  | CDigit => is_digit a
  | CLit b => Ascii.eqb a b
  | CDot => negb (Nat.eqb (nat_of_ascii a) 10)
  end.

Fixpoint nullable (r : regex) : bool :=
  match r with
  | RNone => false
  | REps => true
  | RChar _ => false
  | RSeq r1 r2 => nullable r1 && nullable r2
  | RAlt r1 r2 => nullable r1 || nullable r2
  | RStar _ => true
  end.

(** The residual of [r] after reading the character [a]. *)
Fixpoint deriv (a : ascii) (r : regex) : regex :=
  match r with
  | RNone => RNone
  | REps => RNone
  | RChar c => if class_matches c a then REps else RNone
  | RSeq r1 r2 =>
      if nullable r1 then RAlt (RSeq (deriv a r1) r2) (deriv a r2)
      else RSeq (deriv a r1) r2
  | RAlt r1 r2 => RAlt (deriv a r1) (deriv a r2)
  | RStar r1 => RSeq (deriv a r1) (RStar r1)
  end.

(** [pattern.match(s) is not None]: a prefix of [s] is matched. *)
Fixpoint re_match (r : regex) (s : string) : bool :=
  nullable r ||
  match s with
  | EmptyString => false
  | String a s' => re_match (deriv a r) s'
  end.

(** [pattern.fullmatch(s) is not None]: the whole of [s] is matched. *)
Fixpoint re_fullmatch (r : regex) (s : string) : bool :=
  match s with
  | EmptyString => nullable r
  | String a s' => re_fullmatch (deriv a r) s'
  end.

(** The language of a pattern: the strings it matches in full. *)
Inductive matches : regex -> string -> Prop :=
| MEps : matches REps ""
| MChar c a : class_matches c a = true -> matches (RChar c) (String a "")
| MSeq r1 r2 s1 s2 :
    matches r1 s1 -> matches r2 s2 -> matches (RSeq r1 r2) (String.append s1 s2)
| MAltL r1 r2 s : matches r1 s -> matches (RAlt r1 r2) s
| MAltR r1 r2 s : matches r2 s -> matches (RAlt r1 r2) s
| MStarNil r : matches (RStar r) ""
| MStarApp r s1 s2 :
    matches r s1 -> matches (RStar r) s2 -> matches (RStar r) (String.append s1 s2).

(** [(\w+-)+(\d\.?)+.json] *)
Definition version_regex : regex :=
  RSeq (RPlus (RSeq (RPlus (RChar CWord)) (RChar (CLit "-"))))
    (RSeq (RPlus (RSeq (RChar CDigit) (ROpt (RChar (CLit ".")))))
       (RSeq (RChar CDot) (RLit "json"))).

(** ** Strings and paths *)

Fixpoint ends_with_slash (s : string) : bool :=
  match s with
  | EmptyString => false
  | String a EmptyString => Ascii.eqb a "/"
  | String _ s' => ends_with_slash s'
  end.

Definition starts_with_slash (s : string) : bool :=
  match s with
  | String a _ => Ascii.eqb a "/"
  | EmptyString => false
  end.

(** [s.endswith(suffix)] *)
Fixpoint str_endswith (s suffix : string) : bool :=
  String.eqb s suffix ||
  match s with
  | EmptyString => false
  | String _ s' => str_endswith s' suffix
  end.

(** [os.path.join(a, b)] (posixpath). *)
Definition os_path_join (a b : string) : string :=
  if starts_with_slash b then b
  else if (String.eqb a "" || ends_with_slash a)%bool then String.append a b
  else String.append a (String.append "/" b).

(** The url of a collection file (lines 54-55). *)
Definition collection_url (root_url file : string) : string :=
  if ends_with_slash root_url then String.append root_url file
  else String.append root_url (String.append "/" file).

(** ** The world outside the function *)

(** The file system: [os.listdir(folder)], and [open(file)] followed by
    [json.load(f)] and the read of its ["objects"]; each either returns or
    raises. *)
Record FileSystem := mkFileSystem {
  fs_listdir : string -> result (list string);
  fs_load : string -> result (list StixObject)
}.

(** What the function does to the outside, in order: its calls of [print],
    of [os.listdir] and of [open].  What tqdm writes to stderr for its
    progress bars is no event here. *)
Inductive event :=
| EPrint (msg : string)
| EListdir (folder : string)
| EOpen (file : string).

(** The value stored under ["objects"] of a caller's bundle: the list the
    caller built, or (after line 40 ran) a [filter] iterator, of which
    [pending] are the underlying elements not read yet.  An iterator gives
    each element once. *)
Inductive ObjectsValue :=
| ObjList (l : list StixObject)
| ObjFilter (pending : list StixObject).

(** A caller's bundle: an object that is subscripted and assigned to under
    ["objects"] (lines 39-41).  [b_attr_id] is the value of the attribute
    read by [potentially_valid_bundle.id] (line 44): [None] when the object
    has no such attribute, which is the case of a [dict] (its ["id"] key is
    not read by the code). *)
Record Bundle := mkBundle {
  b_attr_id : option string;
  b_objects : ObjectsValue
}.

Definition loc := nat.

Record world := mkWorld {
  w_store : gmap loc Bundle;
  w_trace : list event
}.

(** Computations that read and write the world and may raise. *)
Definition M (A : Type) : Type := world -> world * result A.

Definition ret {A} (a : A) : M A := fun w => (w, Ok a).

Definition raise {A} (e : py_error) : M A := fun w => (w, Raise e).

Definition bind {A B} (m : M A) (k : A -> M B) : M B :=
  fun w =>
    match m w with
    | (w', Ok a) => k a w'
    | (w', Raise e) => (w', Raise e)
    end.

Notation "'do' x <- m ; k" := (bind m (fun x => k))
  (at level 10, x name, m at level 100, k at level 200).
Notation "'exec' m ; k" := (bind m (fun _ => k))
  (at level 10, m at level 100, k at level 200).

Definition emit (e : event) : M unit :=
  fun w => ({| w_store := w_store w; w_trace := w_trace w ++ [e] |}, Ok tt).

Definition lift {A} (r : result A) : M A := fun w => (w, r).

Definition get_bundle (b : loc) : M (option Bundle) :=
  fun w => (w, Ok (w_store w !! b)).

Definition set_objects (b : loc) (ov : ObjectsValue) : M unit :=
  fun w =>
    ({| w_store := alter (fun x => {| b_attr_id := b_attr_id x; b_objects := ov |})
                     b (w_store w);
        w_trace := w_trace w |}, Ok tt).

(** Truth value of an optional list argument: [None] and [[]] are false. *)
Definition truthy {A} (x : option (list A)) : bool :=
  match x with
  | Some (_ :: _) => true
  | _ => false
  end.

Definition list_of {A} (x : option (list A)) : list A :=
  match x with
  | Some l => l
  | None => []
  end.

(** [any(x["type"] == 'x-mitre-collection' for x in objects)] and what it
    leaves of [objects]: a list is unchanged, an iterator has lost what was
    read, up to and including the first collection object. *)
Fixpoint after_first_collection (l : list StixObject) : list StixObject :=
  match l with
  | [] => []
  | x :: l' => if is_collection x then l' else after_first_collection l'
  end.

Definition any_collection (ov : ObjectsValue) : bool * ObjectsValue :=
  match ov with
  | ObjList l => (existsb is_collection l, ObjList l)
  | ObjFilter pending =>
      (existsb is_collection pending, ObjFilter (after_first_collection pending))
  end.

(** [filter(lambda x: x["type"] == "x-mitre-collection", objects)]: a new
    iterator over [objects]; nothing is read yet. *)
Definition filter_objects (ov : ObjectsValue) : ObjectsValue :=
  match ov with
  | ObjList l => ObjFilter l
  | ObjFilter pending => ObjFilter pending
  end.

(** Reading [objects] to the end: what is yielded, and what is left. *)
Definition iterate_objects (ov : ObjectsValue) : list StixObject * ObjectsValue :=
  match ov with
  | ObjList l => (l, ObjList l)
  | ObjFilter pending => (List.filter is_collection pending, ObjFilter [])
  end.

(** ** Sorting the versions

    [list.sort(key=..., reverse=True)] is a stable sort: elements whose keys
    compare equal keep their relative order, also with [reverse=True].  It is
    modelled by a stable insertion sort on the parsed [modified] instant;
    every stable descending sort returns the same list
    ([sort_desc_unique] below). *)

Section Timestamps.

Variable isoparse : string -> Z.
Variable isoformat : Z -> string.

Definition version_key (v : Version) : Z := isoparse (v_modified v).

(** [x] goes in front of the first element whose key is not greater: it stood
    before all of them in the list being sorted. *)
Fixpoint insert_desc (x : Version) (l : list Version) : list Version :=
  match l with
  | [] => [x]
  | y :: l' =>
      if (version_key x <? version_key y)%Z then y :: insert_desc x l'
      else x :: y :: l'
  end.

Fixpoint sort_desc (l : list Version) : list Version :=
  match l with
  | [] => []
  | x :: l' => insert_desc x (sort_desc l')
  end.

(** ** extract_collection (lines 89-117) *)

Definition new_collection (x : StixObject) : Collection :=
  {| c_id := o_id x; c_created := o_created x; c_versions := [] |}.

Definition new_version (x : StixObject) (url : string) : Version :=
  {| v_version := o_x_mitre_version x;
     v_url := url;
     v_modified := o_modified x;
     v_name := o_name x;
     v_description := o_description x |}.

Definition append_version (v : Version) (c : Collection) : Collection :=
  {| c_id := c_id c;
     c_created := c_created c;
     c_versions := sort_desc (c_versions c ++ [v]) |}.

(** The body of the loop, for one collection object (lines 99-117). *)
Definition add_version (url : string) (collections : table) (x : StixObject) : table :=
  let collections1 :=
    if table_mem (o_id x) collections then collections
    else collections ++ [(o_id x, new_collection x)] in
  table_alter (append_version (new_version x url)) (o_id x) collections1.

(** [objects] is the sequence that iterating [bundle["objects"]] yields. *)
Definition extract_collection (objects : list StixObject) (collections : table)
    (url : string) : table :=
  fold_left (add_version url) (List.filter is_collection objects) collections.

(** ** generate_index (lines 12-86) *)

Definition usage_message : string :=
  "cannot use both files and folder at the same time, please use only one argument at a time".

Definition bundle_message (bundle_id : string) : string :=
  String.append "cannot use bundle "
    (String.append bundle_id " due to lack of collection object").

(** Lines 32-34: the candidate files of the folders, in listing order. *)
Fixpoint scan_folders (fs : FileSystem) (folders : list string) : M (list string) :=
  match folders with
  | [] => ret []
  | folder :: rest =>
      exec emit (EListdir folder);
      do names <- lift (fs_listdir fs folder);
      do more <- scan_folders fs rest;
      ret (List.map (os_path_join folder)
             (List.filter (re_match version_regex) names) ++ more)
  end.

(** Lines 38-44: the bundles that hold a collection object; each of them has
    its ["objects"] replaced by a [filter] iterator.  A reference that is not
    in the store stands for no Python value and is passed over. *)
Fixpoint clean_bundles (bundles : list loc) : M (list loc) :=
  match bundles with
  | [] => ret []
  | b :: rest =>
      do found <- get_bundle b;
      match found with
      | None => clean_bundles rest
      | Some potentially_valid_bundle =>
          let (has_collection, objects) :=
            any_collection (b_objects potentially_valid_bundle) in
          exec set_objects b objects;
          if has_collection then
            exec set_objects b (filter_objects objects);
            do more <- clean_bundles rest;
            ret (b :: more)
          else
            match b_attr_id potentially_valid_bundle with
            | None => raise AttributeError
            | Some bundle_id =>
                exec emit (EPrint (bundle_message bundle_id));
                clean_bundles rest
            end
      end
  end.

(** Lines 51-56. *)
Fixpoint parse_files (fs : FileSystem) (root_url : string) (files : list string)
    (collections : table) : M table :=
  match files with
  | [] => ret collections
  | collection_bundle_file :: rest =>
      exec emit (EOpen collection_bundle_file);
      do objects <- lift (fs_load fs collection_bundle_file);
      parse_files fs root_url rest
        (extract_collection objects collections
           (collection_url root_url collection_bundle_file))
  end.

(** Lines 59-61: the loop of [extract_collection] reads the bundle's
    iterator to its end. *)
Fixpoint transfer_bundles (cleaned_bundles : list loc) (collections : table) : M table :=
  match cleaned_bundles with
  | [] => ret collections
  | b :: rest =>
      do found <- get_bundle b;
      match found with
      | None => transfer_bundles rest collections
      | Some input_bundle =>
          let (objects, left) := iterate_objects (b_objects input_bundle) in
          exec set_objects b left;
          transfer_bundles rest (extract_collection objects collections "Imported")
      end
  end.

(** Lines 26-61: everything up to the assembly of the index. *)
Definition build_table (fs : FileSystem) (root_url : string)
    (files folders : option (list string)) (bundles : option (list loc)) : M table :=
  exec (if (truthy files && truthy folders)%bool then emit (EPrint usage_message)
        else ret tt);
  do files1 <- (if truthy folders
                then do found <- scan_folders fs (list_of folders); ret (Some found)
                else ret files);
  do cleaned_bundles <- (if truthy bundles then clean_bundles (list_of bundles)
                         else ret []);
  do collections <- (if truthy files1 then parse_files fs root_url (list_of files1) []
                     else ret []);
  match cleaned_bundles with
  | [] => ret collections
  | _ :: _ => transfer_bundles cleaned_bundles collections
  end.

(** [a if a and a < x else x], with [None] for the missing [a]. *)
Definition earliest (a : option Z) (x : Z) : option Z :=
  match a with
  | Some a' => if (a' <? x)%Z then Some a' else Some x
  | None => Some x
  end.

(** [a if a and a > x else x] *)
Definition latest (a : option Z) (x : Z) : option Z :=
  match a with
  | Some a' => if (a' >? x)%Z then Some a' else Some x
  | None => Some x
  end.

Definition strip_version (v : Version) : IndexVersion :=
  {| iv_version := v_version v; iv_url := v_url v; iv_modified := v_modified v |}.

(** [l[-1]] *)
Definition last_item {A} (l : list A) : option A := List.last (List.map Some l) None.

(** Lines 63-77: one pass over the collections, threading [index_created]
    and [index_modified]. *)
Fixpoint assemble (collections : list Collection) (index_created index_modified : option Z)
    : result (list IndexCollection * option Z * option Z) :=
  match collections with
  | [] => Ok ([], index_created, index_modified)
  | collection :: rest =>
      match last_item (c_versions collection) with
      | None => Raise IndexError
      | Some newest =>
          let index_created1 := earliest index_created (isoparse (c_created collection)) in
          let index_modified1 :=
            fold_left (fun m v => latest m (version_key v)) (c_versions collection)
              index_modified in
          match assemble rest index_created1 index_modified1 with
          | Ok (out, ic, im) =>
              Ok ({| ic_id := c_id collection;
                     ic_created := c_created collection;
                     ic_versions := List.map strip_version (c_versions collection);
                     ic_name := v_name newest;
                     ic_description := v_description newest |} :: out, ic, im)
          | Raise e => Raise e
          end
      end
  end.

(** Lines 79-86.  [index_created.isoformat()] on [None] raises
    AttributeError.  [uuid] is the value of [str(uuid.uuid4())] in this call. *)
Definition finish (name description uuid : string)
    (r : list IndexCollection * option Z * option Z) : result Index :=
  match r with
  | (out, Some index_created, Some index_modified) =>
      Ok {| i_id := uuid;
            i_name := name;
            i_description := description;
            i_created := isoformat index_created;
            i_modified := isoformat index_modified;
            i_collections := out |}
  | _ => Raise AttributeError
  end.

Definition generate_index (fs : FileSystem) (name description root_url : string)
    (files folders : option (list string)) (bundles : option (list loc))
    (uuid : string) : M Index :=
  do collections <- build_table fs root_url files folders bundles;
  do assembled <- lift (assemble (table_values collections) None None);
  lift (finish name description uuid assembled).

(** ** Predicates of the specification *)

(** Descending by [modified]: every element is at least as recent as all
    that follow it. *)
Definition desc_sorted (l : list Version) : Prop :=
  StronglySorted (fun a b => (version_key b <= version_key a)%Z) l.

(** The versions of [l] modified at the instant [t], in the order of [l]. *)
Definition modified_at (t : Z) (l : list Version) : list Version :=
  List.filter (fun v => (version_key v =? t)%Z) l.

Definition versions_ok (c : Collection) : Prop :=
  c_versions c <> [] /\ desc_sorted (c_versions c).

(** The invariant of the table: it holds of every record stored. *)
Definition table_inv (t : table) : Prop := Forall versions_ok (table_values t).

Definition versions_of (k : string) (t : table) : list Version :=
  match table_get k t with
  | Some c => c_versions c
  | None => []
  end.

Definition created_of (k : string) (t : table) : option string :=
  match table_get k t with
  | Some c => Some (c_created c)
  | None => None
  end.

(** The collection objects of identity [k] among [objects], in order. *)
Definition objects_of (k : string) (objects : list StixObject) : list StixObject :=
  List.filter (fun x => (is_collection x && String.eqb (o_id x) k)%bool) objects.

(** The versions that [extract_collection] appends to the record [k], in
    the order of their insertion. *)
Definition inserted (k : string) (objects : list StixObject) (url : string)
    : list Version :=
  List.map (fun x => new_version x url) (objects_of k objects).

(** The [created] carried by the first collection object of identity [k]. *)
Definition first_created (k : string) (objects : list StixObject) : option string :=
  match objects_of k objects with
  | x :: _ => Some (o_created x)
  | [] => None
  end.

(** The instants of [created] of the records, and of [modified] of all
    versions of all records. *)
Definition created_instants (t : table) : list Z :=
  List.map (fun c => isoparse (c_created c)) (table_values t).

Definition modified_instants (t : table) : list Z :=
  List.map version_key (List.concat (List.map c_versions (table_values t))).

Definition is_minimum (m : Z) (l : list Z) : Prop :=
  In m l /\ forall x, In x l -> (m <= x)%Z.

Definition is_maximum (m : Z) (l : list Z) : Prop :=
  In m l /\ forall x, In x l -> (x <= m)%Z.

(** [out] is the record [c] as the index shows it: the versions without
    their names and descriptions, and the name and description of the last
    version of the list. *)
Definition finalized (c : Collection) (out : IndexCollection) : Prop :=
  ic_id out = c_id c /\
  ic_created out = c_created c /\
  ic_versions out = List.map strip_version (c_versions c) /\
  exists v, last_item (c_versions c) = Some v /\
            ic_name out = v_name v /\
            ic_description out = v_description v.


(** ** Runs *)

(** The world in which a call starts: the caller's objects, nothing done. *)
Definition start (store : gmap loc Bundle) : world :=
  {| w_store := store; w_trace := [] |}.

(** The outcome [x] of a computation, had [tr] happened before it. *)
Definition with_trace {A} (tr : list event) (x : world * result A) : world * result A :=
  ({| w_store := w_store (fst x); w_trace := tr ++ w_trace (fst x) |}, snd x).

(** A computation that appends to the trace and never reads it. *)
Definition trace_blind {A} (m : M A) : Prop :=
  forall store tr,
    m {| w_store := store; w_trace := tr |} = with_trace tr (m (start store)).

(** A computation that leaves the caller's objects as they are. *)
Definition store_preserving {A} (m : M A) : Prop :=
  forall w, w_store (fst (m w)) = w_store w.

End Timestamps.

(** ** Sample inputs

    Concrete timestamps, objects, files and bundles on which the definitions
    above are evaluated. *)

(** A stand-in for [isoparse] on timestamps of one layout and zone
    (YYYY-MM-DDTHH:MM:SSZ): the digits read as one number, which orders such
    timestamps as time does. *)
Fixpoint digits_value (acc : Z) (s : string) : Z :=
  match s with
  | EmptyString => acc
  | String a s' =>
      if is_digit a then digits_value (10 * acc + Z.of_nat (nat_of_ascii a - 48)) s'
      else digits_value acc s'
  end.

Definition isoparse_digits (s : string) : Z := digits_value 0 s.

(** The matching stand-in for [isoformat]: the digits of the instant. *)
Definition isoformat_digits (z : Z) : string :=
  NilZero.string_of_int (Z.to_int z).

Definition collection_A : StixObject :=
  {| o_type := "x-mitre-collection"; o_id := "X";
     o_created := "2020-01-01T00:00:00Z"; o_modified := "2020-02-01T00:00:00Z";
     o_x_mitre_version := "1.0"; o_name := "Alpha"; o_description := "first" |}.

Definition collection_B : StixObject :=
  {| o_type := "x-mitre-collection"; o_id := "X";
     o_created := "2020-06-01T00:00:00Z"; o_modified := "2021-01-01T00:00:00Z";
     o_x_mitre_version := "1.1"; o_name := "Beta"; o_description := "second" |}.

Definition collection_Y : StixObject :=
  {| o_type := "x-mitre-collection"; o_id := "Y";
     o_created := "2019-05-01T00:00:00Z"; o_modified := "2020-02-01T00:00:00Z";
     o_x_mitre_version := "3.0"; o_name := "Gamma"; o_description := "other" |}.

Definition technique : StixObject :=
  {| o_type := "attack-pattern"; o_id := "T";
     o_created := "2018-01-01T00:00:00Z"; o_modified := "2018-01-01T00:00:00Z";
     o_x_mitre_version := "1.0"; o_name := "Technique"; o_description := "" |}.

(** A directory [dir] with two version files and a readme, a directory
    [backup] with a copy of a version file, and a loose file [a.json]. *)
Definition sample_fs : FileSystem :=
  {| fs_listdir := fun folder =>
       if String.eqb folder "dir"
       then Ok ["foo-1.0.json"; "foo-1.1.json"; "readme.md"]
       else if String.eqb folder "backup" then Ok ["foo-1.0.json.bak"]
       else Raise FileNotFoundError;
     fs_load := fun file =>
       if String.eqb file "dir/foo-1.0.json" then Ok [collection_A; technique]
       else if String.eqb file "dir/foo-1.1.json" then Ok [collection_B]
       else if String.eqb file "backup/foo-1.0.json.bak" then Ok [collection_A]
       else if String.eqb file "a.json" then Ok [collection_Y]
       else Raise FileNotFoundError |}.

(** Two bundles built by a caller as dicts: one without a collection object,
    one with. *)
Definition bundle_without_collection : Bundle :=
  {| b_attr_id := None; b_objects := ObjList [technique] |}.

Definition bundle_with_collection : Bundle :=
  {| b_attr_id := None; b_objects := ObjList [technique; collection_A] |}.

Definition sample_store : gmap loc Bundle :=
  <[1%nat := bundle_with_collection]> (<[0%nat := bundle_without_collection]> ∅).

(** ** Further notions of the table and of the store *)

(** [list(collections.keys())] *)
Definition keys (t : table) : list string := List.map fst t.

(** All versions of all records. *)
Definition all_versions (t : table) : list Version :=
  List.concat (List.map c_versions (table_values t)).

(** A table as a dict: no key twice, and every record under its own id. *)
Definition well_keyed (t : table) : Prop :=
  NoDup (keys t) /\ Forall (fun kc => c_id (snd kc) = fst kc) t.

(** The identities of the collection objects of a bundle, in order. *)
Definition collection_ids (objects : list StixObject) : list string :=
  List.map o_id (List.filter is_collection objects).

(** The identities of [ids] that are not in [seen], each once, in the order
    in which they first occur. *)
Fixpoint first_seen (seen ids : list string) : list string :=
  match ids with
  | [] => []
  | i :: rest =>
      if existsb (String.eqb i) seen then first_seen seen rest
      else i :: first_seen (seen ++ [i]) rest
  end.

(** A collection object is still to be had from the value. *)
Definition offers_collection (ov : ObjectsValue) : bool :=
  match ov with
  | ObjList l => existsb is_collection l
  | ObjFilter pending => existsb is_collection pending
  end.

(** The candidate files of one folder, as lines 33-34 compute them; none
    when the folder cannot be listed. *)
Definition candidates (fs : FileSystem) (folder : string) : list string :=
  match fs_listdir fs folder with
  | Ok names =>
      List.map (os_path_join folder) (List.filter (re_match version_regex) names)
  | Raise _ => []
  end.

(** The objects of a bundle file; none when it cannot be read. *)
Definition loaded (fs : FileSystem) (file : string) : list StixObject :=
  match fs_load fs file with
  | Ok objects => objects
  | Raise _ => []
  end.

Definition listable (fs : FileSystem) (folder : string) : Prop :=
  exists names, fs_listdir fs folder = Ok names.

Definition loadable (fs : FileSystem) (file : string) : Prop :=
  exists objects, fs_load fs file = Ok objects.

(** The table after the files were read one after the other, in order. *)
Definition table_of_files (isoparse : string -> Z) (fs : FileSystem)
    (root_url : string) (files : list string) (collections : table) : table :=
  fold_left
    (fun t file => extract_collection isoparse (loaded fs file) t
                     (collection_url root_url file))
    files collections.

(** The world [w] after [events] happened. *)
Definition after_events (w : world) (events : list event) : world :=
  {| w_store := w_store w; w_trace := w_trace w ++ events |}.

(** The value under ["objects"] of the bundle at [b]. *)
Definition objects_at (store : gmap loc Bundle) (b : loc) : option ObjectsValue :=
  match store !! b with
  | Some bundle => Some (b_objects bundle)
  | None => None
  end.

(** A trace without a printed message. *)
Definition quiet (tr : list event) : Prop :=
  Forall (fun e => forall msg, e <> EPrint msg) tr.

(** The objects that a value under ["objects"] still has to give. *)
Definition contents (ov : ObjectsValue) : list StixObject :=
  match ov with
  | ObjList l => l
  | ObjFilter pending => pending
  end.

Definition contents_at (store : gmap loc Bundle) (b : loc) : list StixObject :=
  match objects_at store b with
  | Some ov => contents ov
  | None => []
  end.

(** The version [v] of the record [k] was made from a collection object of
    identity [k] that stands in the bundle file [file]: it has the version
    and the modified of the object and the url of the file. *)
Definition from_file (fs : FileSystem) (root_url k file : string) (v : Version) : Prop :=
  exists objects x,
    fs_load fs file = Ok objects /\ In x objects /\
    is_collection x = true /\ o_id x = k /\
    v = new_version x (collection_url root_url file).

(** The version [v] of the record [k] was made from a collection object of
    identity [k] that the bundle at [b] held when the call began. *)
Definition from_bundle (store : gmap loc Bundle) (k : string) (b : loc)
    (v : Version) : Prop :=
  exists x,
    In x (contents_at store b) /\ is_collection x = true /\ o_id x = k /\
    v = new_version x "Imported".

(** Every record stands under its own id and each of its versions has an
    origin that [Q] accepts for the identity. *)
Definition sourced (Q : string -> Version -> Prop) (t : table) : Prop :=
  Forall (fun kc => c_id (snd kc) = fst kc /\
                    forall v, In v (c_versions (snd kc)) -> Q (fst kc) v) t.

(** [P] holds of some character of [s]. *)
Fixpoint string_exists (P : ascii -> bool) (s : string) : bool :=
  match s with
  | EmptyString => false
  | String a s' => P a || string_exists P s'
  end.

(** ** main (lines 120-170)

    The command line after [parser.parse_args()].  [-files] and [-folders]
    take one or more values ([nargs="+"]) and stand in a mutually exclusive
    group that is required: [parse_args] returns with exactly one of them,
    a non-empty list, and the other [None]. *)

Record Args := mkArgs {
  a_name : string;
  a_description : string;
  a_root_url : string;
  a_output : string;
  a_files : option (list string);
  a_folders : option (list string)
}.

Definition parsed (args : Args) : Prop :=
  (truthy (a_files args) = true /\ a_folders args = None) \/
  (a_files args = None /\ truthy (a_folders args) = true).

(** What [main] does to the outside after parsing, in order. *)
Inductive cli_event :=
| CTruncate (output : string)               (* open(args.output, "w") *)
| CInner (e : event)                        (* what generate_index does *)
| CPrint (msg : string)
| CDump (output : string) (index : Index).  (* json.dump(index, f, indent=4) *)

(** Lines 165-170.  [open_output] is the opening of the output file for
    writing, which creates or empties it; [fs] is the file system as it is
    once this is done.  No bundles are passed. *)
Definition main (isoparse : string -> Z) (isoformat : Z -> string)
    (open_output : string -> result unit) (fs : FileSystem) (args : Args)
    (uuid : string) : list cli_event * result unit :=
  match open_output (a_output args) with
  | Raise e => ([], Raise e)
  | Ok _ =>
      let (w, r) :=
        generate_index isoparse isoformat fs (a_name args) (a_description args)
          (a_root_url args) (a_files args) (a_folders args) None uuid (start ∅) in
      let done := CTruncate (a_output args) :: List.map CInner (w_trace w) in
      match r with
      | Ok index =>
          (done ++ [CPrint (String.append "writing " (a_output args));
                    CDump (a_output args) index], Ok tt)
      | Raise e => (done, Raise e)
      end
  end.

(** * Layout scores (mitreattack/navlayers/core/layout.py)

    [Layout.compute_aggregate] and [Layout.aggFunction].  Scores are
    integers here ([Z]); the quotient [sum(data)/len(data)] of the average is
    kept as its numerator and denominator, not evaluated to a float, and the
    OverflowError of that division on integers beyond the range of floats is
    not modelled: of the average the development states only what does not
    depend on the division returning. *)

Module Aggregates.
Inductive t := average | min | max | sum.
End Aggregates.

(** The fields of a layout that the two methods read.  [None] is a field
    that still holds UNSETVALUE: its property then returns [None]. *)
Record Layout := mkLayout {
  showAggregateScores : option bool;
  countUnscored : option bool;
  aggregateFunction : Aggregates.t
}.

(** A technique or subtechnique: its [score] attribute, [None] or a number. *)
Record Technique := mkTechnique {
  score : option Z
}.

Inductive number :=
| NInt (z : Z)
| NQuot (numerator denominator : Z).   (* numerator / denominator *)

Inductive layout_error :=
| ZeroDivisionError
| ValueError.

Inductive outcome (A : Type) :=
| Returns (a : A)
| Raises (e : layout_error).
Arguments Returns {A} a.
Arguments Raises {A} e.

(** Truth value of what a boolean property returns. *)
Definition is_true (x : option bool) : bool :=
  match x with
  | Some true => true
  | _ => false
  end.

(** [sum(data)] *)
Definition py_sum (data : list Z) : Z := fold_left Z.add data 0%Z.

(** [min(data)] and [max(data)]: ValueError on an empty list. *)
Definition py_min (data : list Z) : outcome Z :=
  match data with
  | [] => Raises ValueError
  | x :: rest => Returns (fold_left Z.min rest x)
  end.

Definition py_max (data : list Z) : outcome Z :=
  match data with
  | [] => Raises ValueError
  | x :: rest => Returns (fold_left Z.max rest x)
  end.

(** Lines 51-67.  Without [showAggregateScores] the method falls off its end
    and returns [None]. *)
Definition aggFunction (self : Layout) (data_block : list Z) : outcome (option number) :=
  if is_true (showAggregateScores self) then
    match aggregateFunction self with
    | Aggregates.average =>
        match data_block with
        | [] => Raises ZeroDivisionError
        | _ :: _ =>
            Returns (Some (NQuot (py_sum data_block) (Z.of_nat (length data_block))))
        end
    | Aggregates.min =>
        match py_min data_block with
        | Returns m => Returns (Some (NInt m))
        | Raises e => Raises e
        end
    | Aggregates.max =>
        match py_max data_block with
        | Returns m => Returns (Some (NInt m))
        | Raises e => Raises e
        end
    | Aggregates.sum => Returns (Some (NInt (py_sum data_block)))
    end
  else Returns None.

(** Lines 35-43: the scores that are counted. *)
Definition counted_scores (self : Layout) (technique : Technique)
    (subtechniques : list Technique) : list Z :=
  (match score technique with
   | Some s => [s]
   | None => []
   end) ++
  List.flat_map
    (fun x =>
       match score x with
       | Some s => [s]
       | None => if is_true (countUnscored self) then [0%Z] else []
       end)
    subtechniques.

(** Lines 28-49. *)
Definition compute_aggregate (self : Layout) (technique : Technique)
    (subtechniques : list Technique) : outcome (option number) :=
  if is_true (showAggregateScores self) then
    let scores := counted_scores self technique subtechniques in
    if forallb (fun x => (x =? 0)%Z) scores then Returns None
    else aggFunction self scores
  else Returns None.

(** ** More sample inputs *)

(** A directory [docs] none of whose entries is named like a version file. *)
Definition docs_fs : FileSystem :=
  {| fs_listdir := fun folder =>
       if String.eqb folder "docs" then Ok ["readme.md"; "index.json"; "notes-final.json"]
       else fs_listdir sample_fs folder;
     fs_load := fs_load sample_fs |}.

Definition open_any (output : string) : result unit := Ok tt.

Definition args_folder (folder : string) : Args :=
  {| a_name := "index"; a_description := "demo"; a_root_url := "http://r";
     a_output := "index.json"; a_files := None; a_folders := Some [folder] |}.

Definition layout_with (agg : Aggregates.t) (count : bool) : Layout :=
  {| showAggregateScores := Some true;
     countUnscored := Some count;
     aggregateFunction := agg |}.

Definition scored (s : Z) : Technique := {| score := Some s |}.
Definition unscored : Technique := {| score := None |}.

(** * The pattern matcher *)

Section Matcher.

Lemma append_empty (s1 s2 : string) :
  String.append s1 s2 = "" -> s1 = "" /\ s2 = "".
Proof. destruct s1; simpl; [auto | discriminate]. Qed.

Lemma append_cons (s1 s2 s : string) (a : ascii) :
  String.append s1 s2 = String a s ->
  (s1 = "" /\ s2 = String a s) \/
  (exists s1', s1 = String a s1' /\ s = String.append s1' s2).
Proof.
  destruct s1 as [|b s1]; simpl; intros H; [left; auto |].
  injection H as -> <-. right. exists s1. auto.
Qed.

Lemma nullable_matches (r : regex) : nullable r = true <-> matches r "".
Proof.
  split.
  - induction r; simpl; intros H; try discriminate.
    + constructor.
    + apply andb_true_iff in H as [H1 H2].
      change "" with (String.append "" ""). constructor; auto.
    + apply orb_true_iff in H as [H | H]; [apply MAltL | apply MAltR]; auto.
    + constructor.
  - intros H. remember "" as s eqn:Es.
    induction H; simpl.
    + reflexivity.
    + discriminate.
    + apply append_empty in Es as [-> ->]. rewrite IHmatches1, IHmatches2; reflexivity.
    + rewrite (IHmatches Es). reflexivity.
    + rewrite (IHmatches Es). apply orb_true_r.
    + reflexivity.
    + reflexivity.
Qed.

Lemma deriv_sound (a : ascii) (r : regex) :
  forall s, matches (deriv a r) s -> matches r (String a s).
Proof.
  induction r; simpl; intros s H.
  - inversion H.
  - inversion H.
  - destruct (class_matches c a) eqn:E; inversion H; subst. constructor. exact E.
  - destruct (nullable r1) eqn:En.
    + inversion H; subst.
      * match goal with Hs : matches (RSeq _ _) _ |- _ => inversion Hs; subst end.
        change (matches (RSeq r1 r2) (String.append (String a s1) s2)).
        constructor; auto.
      * change (matches (RSeq r1 r2) (String.append "" (String a s))).
        constructor; [apply nullable_matches, En | auto].
    + inversion H; subst.
      change (matches (RSeq r1 r2) (String.append (String a s1) s2)).
      constructor; auto.
  - inversion H; subst; [apply MAltL | apply MAltR]; auto.
  - inversion H; subst.
    change (matches (RStar r) (String.append (String a s1) s2)).
    constructor; auto.
Qed.

Lemma deriv_complete (a : ascii) (r : regex) (s : string) :
  matches r (String a s) -> matches (deriv a r) s.
Proof.
  intros H. remember (String a s) as s0 eqn:Es. revert s Es.
  induction H; intros s' Es; simpl; try discriminate.
  - injection Es as -> <-. rewrite H. constructor.
  - apply append_cons in Es as [[-> ->] | (s1' & -> & ->)].
    + apply nullable_matches in H. rewrite H. apply MAltR. auto.
    + destruct (nullable r1); [apply MAltL |]; constructor; auto.
  - apply MAltL. auto.
  - apply MAltR. auto.
  - apply append_cons in Es as [[-> ->] | (s1' & -> & ->)].
    + apply IHmatches2. reflexivity.
    + constructor; auto.
Qed.

(** [fullmatch] decides the language of the pattern. *)
Lemma re_fullmatch_matches (s : string) :
  forall r, re_fullmatch r s = true <-> matches r s.
Proof.
  induction s as [|a s IH]; intros r; simpl.
  - apply nullable_matches.
  - rewrite IH. split; [apply deriv_sound | apply deriv_complete].
Qed.

(** [match] succeeds exactly when the pattern matches a prefix of the name;
    what follows the prefix is not looked at. *)
Lemma re_match_prefix (s : string) :
  forall r, re_match r s = true <->
            exists p q, s = String.append p q /\ matches r p.
Proof.
  induction s as [|a s IH]; intros r; simpl.
  - rewrite orb_false_r, nullable_matches. split.
    + intros H. exists "", "". auto.
    + intros (p & q & Hs & Hp). symmetry in Hs.
      apply append_empty in Hs as [-> _]. exact Hp.
  - rewrite orb_true_iff, IH, nullable_matches. split.
    + intros [H | (p & q & -> & Hp)].
      * exists "", (String a s). auto.
      * exists (String a p), q. split; [reflexivity | apply deriv_sound, Hp].
    + intros (p & q & Hs & Hp). symmetry in Hs.
      apply append_cons in Hs as [[-> _] | (p' & -> & ->)].
      * left. exact Hp.
      * right. exists p', q. split; [reflexivity | apply deriv_complete, Hp].
Qed.

(** A name that is kept stays kept whatever is appended to it. *)
Lemma re_match_append (r : regex) (s suffix : string) :
  re_match r s = true -> re_match r (String.append s suffix) = true.
Proof.
  rewrite !re_match_prefix. intros (p & q & -> & Hp).
  exists p, (String.append q suffix). split; [| exact Hp].
  clear Hp. induction p as [|a p IH]; [reflexivity |].
  change (String a (String.append (String.append p q) suffix) =
          String a (String.append p (String.append q suffix))).
  f_equal. exact IH.
Qed.

End Matcher.

(** * Properties *)

Section Properties.

Variable isoparse : string -> Z.
Variable isoformat : Z -> string.

Local Abbreviation key := (version_key isoparse).
Local Abbreviation sorted := (desc_sorted isoparse).
Local Abbreviation sort := (sort_desc isoparse).
Local Abbreviation ins := (insert_desc isoparse).
Local Abbreviation at_instant := (modified_at isoparse).

(** ** The stable descending sort *)

Lemma insert_desc_perm (x : Version) (l : list Version) :
  Permutation (ins x l) (x :: l).
Proof.
  induction l as [|y l IH]; simpl.
  - apply Permutation_refl.
  - destruct (key x <? key y)%Z.
    + eapply perm_trans; [apply perm_skip, IH | apply perm_swap].
    + apply Permutation_refl.
Qed.

Lemma sort_desc_perm (l : list Version) : Permutation (sort l) l.
Proof.
  induction l as [|x l IH]; simpl.
  - apply perm_nil.
  - eapply perm_trans; [apply insert_desc_perm | apply perm_skip, IH].
Qed.

Lemma insert_desc_sorted (x : Version) (l : list Version) :
  sorted l -> sorted (ins x l).
Proof.
  unfold desc_sorted.
  induction l as [|y l IH]; simpl; intros Hs.
  - constructor; [constructor | constructor].
  - apply StronglySorted_inv in Hs as [Hl Hy].
    destruct (key x <? key y)%Z eqn:E.
    + apply Z.ltb_lt in E.
      constructor; [apply IH, Hl |].
      rewrite List.Forall_forall. intros z Hz.
      apply (Permutation_in _ (insert_desc_perm x l)) in Hz.
      destruct Hz as [<- | Hz]; [lia |].
      rewrite List.Forall_forall in Hy. apply Hy, Hz.
    + apply Z.ltb_ge in E.
      constructor; [constructor; assumption |].
      constructor; [exact E |].
      rewrite List.Forall_forall in *. intros z Hz. specialize (Hy z Hz). lia.
Qed.

Lemma sort_desc_sorted (l : list Version) : sorted (sort l).
Proof.
  induction l as [|x l IH]; simpl.
  - constructor.
  - apply insert_desc_sorted, IH.
Qed.

(** Stability: the insertion never moves [x] past an element modified at the
    same instant. *)
Lemma insert_desc_stable (t : Z) (x : Version) (l : list Version) :
  at_instant t (ins x l) = at_instant t (x :: l).
Proof.
  unfold modified_at.
  induction l as [|y l IH]; simpl; [reflexivity |].
  destruct (key x <? key y)%Z eqn:E; [| reflexivity].
  apply Z.ltb_lt in E. simpl. rewrite IH. simpl.
  destruct (key x =? t)%Z eqn:Ex, (key y =? t)%Z eqn:Ey; try reflexivity.
  apply Z.eqb_eq in Ex, Ey. lia.
Qed.

Lemma sort_desc_stable (t : Z) (l : list Version) :
  at_instant t (sort l) = at_instant t l.
Proof.
  induction l as [|x l IH]; simpl; [reflexivity |].
  rewrite insert_desc_stable. unfold modified_at in *. simpl. rewrite IH.
  reflexivity.
Qed.

Lemma modified_at_sorted_above (t : Z) (l : list Version) :
  Forall (fun v => (key v < t)%Z) l -> at_instant t l = [].
Proof.
  unfold modified_at. induction 1 as [|v l Hv _ IH]; simpl; [reflexivity |].
  destruct (Z.eqb_spec (key v) t); [lia | exact IH].
Qed.

(** The contract of [list.sort] determines its result: two descending lists
    that agree on the order of the versions of every instant are equal. *)
Lemma desc_sorted_stable_unique (l1 : list Version) :
  forall l2, sorted l1 -> sorted l2 ->
             (forall t, at_instant t l1 = at_instant t l2) -> l1 = l2.
Proof.
  unfold desc_sorted.
  induction l1 as [|x l1 IH]; intros l2 Hs1 Hs2 Heq.
  - destruct l2 as [|y l2]; [reflexivity |].
    specialize (Heq (key y)). unfold modified_at in Heq. simpl in Heq.
    rewrite Z.eqb_refl in Heq. discriminate.
  - destruct l2 as [|y l2].
    + specialize (Heq (key x)). unfold modified_at in Heq. simpl in Heq.
      rewrite Z.eqb_refl in Heq. discriminate.
    + apply StronglySorted_inv in Hs1 as [Hs1 Hx].
      apply StronglySorted_inv in Hs2 as [Hs2 Hy].
      assert (Hk : key x = key y).
      { destruct (Z.lt_trichotomy (key x) (key y)) as [Hlt | [He | Hgt]];
          [| exact He |].
        - pose proof (Heq (key y)) as H. unfold modified_at in H. simpl in H.
          rewrite Z.eqb_refl in H.
          destruct (Z.eqb_spec (key x) (key y)); [lia |].
          fold (at_instant (key y) l1) in H.
          rewrite modified_at_sorted_above in H; [discriminate |].
          rewrite List.Forall_forall in *. intros v Hv. specialize (Hx v Hv). lia.
        - pose proof (Heq (key x)) as H. unfold modified_at in H. simpl in H.
          rewrite Z.eqb_refl in H.
          destruct (Z.eqb_spec (key y) (key x)); [lia |].
          fold (at_instant (key x) l2) in H.
          rewrite modified_at_sorted_above in H; [discriminate |].
          rewrite List.Forall_forall in *. intros v Hv. specialize (Hy v Hv). lia. }
      assert (Hxy : x = y).
      { pose proof (Heq (key x)) as H. unfold modified_at in H. simpl in H.
        rewrite <- Hk, Z.eqb_refl in H. injection H as H _. exact H. }
      subst y. f_equal. apply IH; [exact Hs1 | exact Hs2 |].
      intros t. specialize (Heq t). unfold modified_at in *. simpl in Heq.
      destruct (key x =? t)%Z; [injection Heq as Heq |]; exact Heq.
Qed.

(** Any stable descending sort returns what [sort_desc] returns. *)
Lemma sort_desc_unique (srt : list Version -> list Version) :
  (forall l, sorted (srt l)) ->
  (forall t l, at_instant t (srt l) = at_instant t l) ->
  forall l, srt l = sort l.
Proof.
  intros Hsorted Hstable l.
  apply desc_sorted_stable_unique;
    [apply Hsorted | apply sort_desc_sorted |].
  intros t. rewrite Hstable, sort_desc_stable. reflexivity.
Qed.

Lemma sort_desc_nonempty (l : list Version) : l <> [] -> sort l <> [].
Proof.
  intros Hl Hs. apply Hl.
  apply Permutation_nil. rewrite <- Hs. apply sort_desc_perm.
Qed.

(** A list that is already in order is left as it is. *)
Lemma sort_desc_sorted_id (l : list Version) : sorted l -> sort l = l.
Proof.
  unfold desc_sorted.
  induction l as [|x l IH]; simpl; intros Hs; [reflexivity |].
  apply StronglySorted_inv in Hs as [Hl Hx].
  rewrite (IH Hl). destruct l as [|y l]; simpl; [reflexivity |].
  apply Forall_inv in Hx.
  destruct (key x <? key y)%Z eqn:E; [| reflexivity].
  apply Z.ltb_lt in E. lia.
Qed.

Lemma last_item_app {A} (l : list A) (x : A) : last_item (l ++ [x]) = Some x.
Proof.
  unfold last_item. rewrite List.map_app. simpl. apply last_last.
Qed.

Lemma last_item_none {A} (l : list A) : last_item l = None -> l = [].
Proof.
  destruct l as [|x l] using rev_ind; [reflexivity |].
  rewrite last_item_app. discriminate.
Qed.

Lemma last_item_in {A} (l : list A) (x : A) : last_item l = Some x -> In x l.
Proof.
  destruct l as [|y l] using rev_ind; [discriminate |].
  rewrite last_item_app. intros [= ->]. apply in_or_app. right. left. reflexivity.
Qed.

(** The last element of a descending list is the oldest. *)
Lemma last_item_oldest (l : list Version) (v : Version) :
  sorted l -> last_item l = Some v ->
  forall u, In u l -> (key v <= key u)%Z.
Proof.
  unfold desc_sorted.
  induction l as [|x l IH]; intros Hs Hl u Hu; [contradiction |].
  apply StronglySorted_inv in Hs as [Hs Hx].
  destruct l as [|y l].
  - cbv in Hl. injection Hl as <-. destruct Hu as [<- | []]. lia.
  - assert (Hl' : last_item (y :: l) = Some v) by exact Hl.
    destruct Hu as [<- | Hu].
    + rewrite List.Forall_forall in Hx. apply Hx, last_item_in, Hl'.
    + apply IH; assumption.
Qed.

(** ** The table *)

Lemma table_get_alter (f : Collection -> Collection) (k k' : string) (t : table) :
  table_get k (table_alter f k' t) =
  if String.eqb k k' then option_map f (table_get k t) else table_get k t.
Proof.
  induction t as [|[k0 c] t IH]; simpl.
  - destruct (String.eqb k k'); reflexivity.
  - destruct (String.eqb_spec k' k0) as [-> | Hne]; simpl.
    + destruct (String.eqb_spec k k0); reflexivity.
    + destruct (String.eqb_spec k k0) as [-> | Hk].
      * destruct (String.eqb_spec k0 k'); [congruence | reflexivity].
      * exact IH.
Qed.

Lemma table_get_snoc (k k' : string) (c : Collection) (t : table) :
  table_get k (t ++ [(k', c)]) =
  match table_get k t with
  | Some c0 => Some c0
  | None => if String.eqb k k' then Some c else None
  end.
Proof.
  induction t as [|[k0 c0] t IH]; simpl; [reflexivity |].
  destruct (String.eqb k k0); [reflexivity | exact IH].
Qed.

Lemma table_alter_snoc (f : Collection -> Collection) (k : string) (c : Collection)
    (t : table) :
  table_get k t = None ->
  table_alter f k (t ++ [(k, c)]) = t ++ [(k, f c)].
Proof.
  induction t as [|[k0 c0] t IH]; simpl; intros Hn.
  - rewrite String.eqb_refl. reflexivity.
  - destruct (String.eqb k k0); [discriminate |].
    rewrite (IH Hn). reflexivity.
Qed.

Lemma table_alter_values (P : Collection -> Prop) (f : Collection -> Collection)
    (k : string) (t : table) :
  (forall c, P (f c)) ->
  Forall P (table_values t) -> Forall P (table_values (table_alter f k t)).
Proof.
  intros Hf. unfold table_values.
  induction t as [|[k0 c0] t IH]; simpl; intros Ht; [constructor |].
  apply Forall_cons_iff in Ht as [H0 Ht].
  destruct (String.eqb k k0); simpl; constructor; auto.
Qed.

(** What [collections[k]] is after the loop body ran for the object [x]. *)
Lemma table_get_add_version (url k : string) (t : table) (x : StixObject) :
  table_get k (add_version isoparse url t x) =
  if String.eqb k (o_id x)
  then Some (append_version isoparse (new_version x url)
               (match table_get k t with
                | Some c => c
                | None => new_collection x
                end))
  else table_get k t.
Proof.
  unfold add_version, table_mem.
  destruct (table_get (o_id x) t) as [c|] eqn:E.
  - rewrite table_get_alter.
    destruct (String.eqb_spec k (o_id x)) as [-> | Hk]; [| reflexivity].
    rewrite E. reflexivity.
  - rewrite table_get_alter, table_get_snoc.
    destruct (String.eqb_spec k (o_id x)) as [-> | Hk].
    + rewrite E. reflexivity.
    + destruct (table_get k t); reflexivity.
Qed.

Lemma append_version_ok (v : Version) (c : Collection) :
  versions_ok isoparse (append_version isoparse v c).
Proof.
  split; simpl.
  - apply sort_desc_nonempty. destruct (c_versions c); discriminate.
  - apply sort_desc_sorted.
Qed.

Lemma add_version_inv (url : string) (t : table) (x : StixObject) :
  table_inv isoparse t -> table_inv isoparse (add_version isoparse url t x).
Proof.
  unfold table_inv, add_version, table_mem. intros Ht.
  destruct (table_get (o_id x) t) as [c|] eqn:E.
  - apply table_alter_values; [apply append_version_ok | exact Ht].
  - rewrite (table_alter_snoc _ _ _ _ E).
    unfold table_values in *. rewrite List.map_app. apply Forall_app. split; [exact Ht |].
    constructor; [apply append_version_ok | constructor].
Qed.

Lemma extract_collection_cons (x : StixObject) (objects : list StixObject)
    (t : table) (url : string) :
  extract_collection isoparse (x :: objects) t url =
  extract_collection isoparse objects
    (if is_collection x then add_version isoparse url t x else t) url.
Proof.
  unfold extract_collection. simpl. destruct (is_collection x); reflexivity.
Qed.

Lemma extract_collection_inv (objects : list StixObject) (t : table) (url : string) :
  table_inv isoparse t -> table_inv isoparse (extract_collection isoparse objects t url).
Proof.
  revert t. induction objects as [|x objects IH]; intros t Ht; [exact Ht |].
  rewrite extract_collection_cons. apply IH.
  destruct (is_collection x); [apply add_version_inv |]; exact Ht.
Qed.

Lemma versions_of_add_version (url k : string) (t : table) (x : StixObject) :
  versions_of k (add_version isoparse url t x) =
  if String.eqb k (o_id x) then sort (versions_of k t ++ [new_version x url])
  else versions_of k t.
Proof.
  unfold versions_of. rewrite table_get_add_version.
  destruct (String.eqb k (o_id x)); [| reflexivity].
  destruct (table_get k t); reflexivity.
Qed.

Lemma modified_at_app (t : Z) (l1 l2 : list Version) :
  at_instant t (l1 ++ l2) = at_instant t l1 ++ at_instant t l2.
Proof. apply List.filter_app. Qed.

Lemma extract_collection_ties (objects : list StixObject) (collections : table)
    (url k : string) (t : Z) :
  at_instant t (versions_of k (extract_collection isoparse objects collections url)) =
  at_instant t (versions_of k collections ++ inserted k objects url).
Proof.
  revert collections. induction objects as [|x objects IH]; intros collections.
  - unfold inserted. simpl. rewrite app_nil_r. reflexivity.
  - rewrite extract_collection_cons, IH.
    unfold inserted, objects_of. simpl.
    rewrite (String.eqb_sym (o_id x) k).
    destruct (is_collection x); simpl; [| reflexivity].
    rewrite versions_of_add_version.
    destruct (String.eqb k (o_id x)); simpl; [| reflexivity].
    rewrite !modified_at_app, sort_desc_stable, modified_at_app.
    rewrite <- app_assoc, <- modified_at_app. reflexivity.
Qed.

(** C4.  [extract_collection] keeps every version list of the table
    non-empty and sorted descending by [modified], after the whole bundle and
    after each single insertion (every prefix of the bundle's objects); and
    among the versions modified at one instant the order is the order of
    insertion: those the record already had, then those of the bundle in the
    order they were read. *)
Theorem extract_collection_versions_invariant (objects : list StixObject)
    (collections : table) (url : string) :
  table_inv isoparse collections ->
  table_inv isoparse (extract_collection isoparse objects collections url) /\
  (forall n, table_inv isoparse
               (extract_collection isoparse (firstn n objects) collections url)) /\
  (forall n k t,
     at_instant t (versions_of k
                     (extract_collection isoparse (firstn n objects) collections url)) =
     at_instant t (versions_of k collections ++ inserted k (firstn n objects) url)) /\
  (forall k t,
     at_instant t (versions_of k (extract_collection isoparse objects collections url)) =
     at_instant t (versions_of k collections ++ inserted k objects url)).
Proof.
  intros Ht. split; [| split; [| split]].
  - apply extract_collection_inv, Ht.
  - intros n. apply extract_collection_inv, Ht.
  - intros n k t. apply extract_collection_ties.
  - intros k t. apply extract_collection_ties.
Qed.

(** ** Provenance of [created] *)

Lemma created_of_add_version (url k : string) (t : table) (x : StixObject) :
  created_of k (add_version isoparse url t x) =
  match created_of k t with
  | Some c => Some c
  | None => if String.eqb k (o_id x) then Some (o_created x) else None
  end.
Proof.
  unfold created_of. rewrite table_get_add_version.
  destruct (String.eqb k (o_id x)); destruct (table_get k t); reflexivity.
Qed.

(** C5.  The [created] of the record [k] after [extract_collection]: the one
    the record had before the call if it existed, whatever the objects of
    the bundle carry; otherwise the [created] of the first collection object
    of identity [k] in the bundle. *)
Theorem extract_collection_created_first_seen (objects : list StixObject)
    (collections : table) (url k : string) :
  created_of k (extract_collection isoparse objects collections url) =
  match created_of k collections with
  | Some created => Some created
  | None => first_created k objects
  end.
Proof.
  revert collections. induction objects as [|x objects IH]; intros collections.
  - unfold first_created, extract_collection. simpl.
    destruct (created_of k collections); reflexivity.
  - rewrite extract_collection_cons, IH.
    unfold first_created, objects_of. simpl.
    rewrite (String.eqb_sym (o_id x) k).
    destruct (is_collection x); simpl; [| reflexivity].
    rewrite created_of_add_version.
    destruct (created_of k collections); [reflexivity |].
    destruct (String.eqb k (o_id x)); reflexivity.
Qed.

(** ** The monad *)

Lemma bind_ok {A B} (m : M A) (k : A -> M B) (w w' : world) (b : B) :
  bind m k w = (w', Ok b) ->
  exists w1 a, m w = (w1, Ok a) /\ k a w1 = (w', Ok b).
Proof.
  unfold bind. destruct (m w) as [w1 [a | e]]; intros H; [| discriminate].
  exists w1, a. split; [reflexivity | exact H].
Qed.

Lemma generate_index_unfold (fs : FileSystem) (name description root_url : string)
    (files folders : option (list string)) (bundles : option (list loc))
    (uuid : string) (w : world) :
  generate_index isoparse isoformat fs name description root_url files folders bundles uuid w =
  match build_table isoparse fs root_url files folders bundles w with
  | (w1, Ok collections) =>
      (w1, match assemble isoparse (table_values collections) None None with
           | Ok assembled => finish isoformat name description uuid assembled
           | Raise e => Raise e
           end)
  | (w1, Raise e) => (w1, Raise e)
  end.
Proof.
  unfold generate_index, bind, lift.
  destruct (build_table isoparse fs root_url files folders bundles w) as [w1 [t | e]];
    [| reflexivity].
  destruct (assemble isoparse (table_values t) None None); reflexivity.
Qed.

(** ** The table that [generate_index] builds *)

Lemma parse_files_inv (fs : FileSystem) (root_url : string) (files : list string) :
  forall (t t' : table) (w w' : world),
    table_inv isoparse t ->
    parse_files isoparse fs root_url files t w = (w', Ok t') ->
    table_inv isoparse t'.
Proof.
  induction files as [|f files IH]; simpl; intros t t' w w' Ht H.
  - injection H as _ <-. exact Ht.
  - apply bind_ok in H as (w1 & [] & _ & H).
    apply bind_ok in H as (w2 & objects & _ & H).
    eapply IH; [| exact H]. apply extract_collection_inv, Ht.
Qed.

Lemma transfer_bundles_inv (cleaned : list loc) :
  forall (t t' : table) (w w' : world),
    table_inv isoparse t ->
    transfer_bundles isoparse cleaned t w = (w', Ok t') ->
    table_inv isoparse t'.
Proof.
  induction cleaned as [|b cleaned IH]; simpl; intros t t' w w' Ht H.
  - injection H as _ <-. exact Ht.
  - apply bind_ok in H as (w1 & found & _ & H).
    destruct found as [input_bundle |]; [| eapply IH; eassumption].
    destruct (iterate_objects (b_objects input_bundle)) as [objects left].
    apply bind_ok in H as (w2 & [] & _ & H).
    eapply IH; [| exact H]. apply extract_collection_inv, Ht.
Qed.

Lemma table_inv_nil : table_inv isoparse [].
Proof. constructor. Qed.

Lemma build_table_inv (fs : FileSystem) (root_url : string)
    (files folders : option (list string)) (bundles : option (list loc))
    (w w' : world) (t : table) :
  build_table isoparse fs root_url files folders bundles w = (w', Ok t) ->
  table_inv isoparse t.
Proof.
  unfold build_table. intros H.
  apply bind_ok in H as (w1 & [] & _ & H).
  apply bind_ok in H as (w2 & files1 & _ & H).
  apply bind_ok in H as (w3 & cleaned & _ & H).
  apply bind_ok in H as (w4 & t1 & H1 & H).
  assert (Ht1 : table_inv isoparse t1).
  { destruct (truthy files1).
    - eapply parse_files_inv; [apply table_inv_nil | exact H1].
    - injection H1 as _ <-. apply table_inv_nil. }
  destruct cleaned as [|b cleaned].
  - injection H as _ <-. exact Ht1.
  - eapply transfer_bundles_inv; [exact Ht1 | exact H].
Qed.

(** ** The assembly *)

Lemma fold_latest_keys (l : list Version) (m : option Z) :
  fold_left (fun m v => latest m (key v)) l m = fold_left latest (List.map key l) m.
Proof.
  revert m. induction l as [|v l IH]; intros m; simpl; [reflexivity | apply IH].
Qed.

(** What a successful pass returns. *)
Lemma assemble_ok (cols : list Collection) :
  forall (ic im : option Z) (out : list IndexCollection) (ic' im' : option Z),
    assemble isoparse cols ic im = Ok (out, ic', im') ->
    Forall2 finalized cols out /\
    ic' = fold_left earliest (List.map (fun c => isoparse (c_created c)) cols) ic /\
    im' = fold_left latest (List.map key (List.concat (List.map c_versions cols))) im.
Proof.
  induction cols as [|c cols IH]; simpl; intros ic im out ic' im' H.
  - injection H as <- <- <-. repeat split. constructor.
  - destruct (last_item (c_versions c)) as [newest |] eqn:El; [| discriminate].
    destruct (assemble isoparse cols _ _) as [[[out1 ic1] im1] | e] eqn:Ea;
      [| discriminate].
    injection H as <- <- <-.
    apply IH in Ea as (Hf & -> & ->).
    split; [| split].
    + constructor; [| exact Hf].
      repeat split; simpl. exists newest. repeat split. exact El.
    + reflexivity.
    + rewrite List.map_app, fold_left_app, fold_latest_keys. reflexivity.
Qed.

(** The pass succeeds when no record has an empty version list. *)
Lemma assemble_total (cols : list Collection) :
  Forall (versions_ok isoparse) cols ->
  forall ic im, exists r, assemble isoparse cols ic im = Ok r.
Proof.
  induction 1 as [|c cols [Hne _] _ IH]; intros ic im; simpl.
  - eexists. reflexivity.
  - destruct (last_item (c_versions c)) as [newest |] eqn:El.
    + destruct (IH (earliest ic (isoparse (c_created c)))
                  (fold_left (fun m v => latest m (key v)) (c_versions c) im))
        as [[[out ic'] im'] ->].
      eexists. reflexivity.
    + apply last_item_none in El. contradiction.
Qed.

Lemma fold_earliest_some (l : list Z) :
  forall a, exists m, fold_left earliest l (Some a) = Some m /\ is_minimum m (a :: l).
Proof.
  induction l as [|x l IH]; intros a; simpl.
  - exists a. split; [reflexivity |]. split; [left; reflexivity |].
    intros y [<- | []]. lia.
  - destruct (Z.ltb_spec a x) as [Hlt | Hge].
    + destruct (IH a) as (m & -> & Hin & Hle).
      exists m. split; [reflexivity |]. split.
      * destruct Hin as [<- | Hin]; [left; reflexivity | right; right; exact Hin].
      * pose proof (Hle a (or_introl eq_refl)) as Ha.
        intros y [<- | [<- | Hy]]; [lia | lia | apply Hle; right; exact Hy].
    + destruct (IH x) as (m & -> & Hin & Hle).
      exists m. split; [reflexivity |]. split.
      * destruct Hin as [<- | Hin]; [right; left; reflexivity | right; right; exact Hin].
      * pose proof (Hle x (or_introl eq_refl)) as Hx.
        intros y [<- | [<- | Hy]]; [lia | lia | apply Hle; right; exact Hy].
Qed.

Lemma fold_latest_some (l : list Z) :
  forall a, exists m, fold_left latest l (Some a) = Some m /\ is_maximum m (a :: l).
Proof.
  induction l as [|x l IH]; intros a; simpl.
  - exists a. split; [reflexivity |]. split; [left; reflexivity |].
    intros y [<- | []]. lia.
  - destruct (Z.gtb_spec a x) as [Hgt | Hle'].
    + destruct (IH a) as (m & -> & Hin & Hle).
      exists m. split; [reflexivity |]. split.
      * destruct Hin as [<- | Hin]; [left; reflexivity | right; right; exact Hin].
      * pose proof (Hle a (or_introl eq_refl)) as Ha.
        intros y [<- | [<- | Hy]]; [lia | lia | apply Hle; right; exact Hy].
    + destruct (IH x) as (m & -> & Hin & Hle).
      exists m. split; [reflexivity |]. split.
      * destruct Hin as [<- | Hin]; [right; left; reflexivity | right; right; exact Hin].
      * pose proof (Hle x (or_introl eq_refl)) as Hx.
        intros y [<- | [<- | Hy]]; [lia | lia | apply Hle; right; exact Hy].
Qed.

Lemma fold_earliest_none (l : list Z) :
  l <> [] -> exists m, fold_left earliest l None = Some m /\ is_minimum m l.
Proof.
  destruct l as [|x l]; [contradiction |]. intros _. simpl. apply fold_earliest_some.
Qed.

Lemma fold_latest_none (l : list Z) :
  l <> [] -> exists m, fold_left latest l None = Some m /\ is_maximum m l.
Proof.
  destruct l as [|x l]; [contradiction |]. intros _. simpl. apply fold_latest_some.
Qed.

Lemma Forall2_strengthen {A B} (P : A -> Prop) (R R' : A -> B -> Prop)
    (l : list A) (l' : list B) :
  (forall a b, P a -> R a b -> R' a b) ->
  Forall P l -> Forall2 R l l' -> Forall2 R' l l'.
Proof.
  intros HR HP H2. induction H2 as [|a b l l' Hab _ IH]; [constructor |].
  apply Forall_cons_iff in HP as [Ha HP]. constructor; auto.
Qed.

(** ** Name and description of a record *)

(** C3.  In the index that [generate_index] returns, every collection
    carries the name and the description of the last element of the version
    list its record has in the table; that list is sorted descending, so the
    element is one with the earliest [modified] of the record: no version of
    the record is older. *)
Theorem generate_index_name_from_last_version (fs : FileSystem)
    (name description root_url : string) (files folders : option (list string))
    (bundles : option (list loc)) (uuid : string) (w w' : world) (idx : Index) :
  generate_index isoparse isoformat fs name description root_url files folders
    bundles uuid w = (w', Ok idx) ->
  exists collections,
    build_table isoparse fs root_url files folders bundles w = (w', Ok collections) /\
    Forall2
      (fun c out =>
         ic_id out = c_id c /\
         sorted (c_versions c) /\
         exists v, last_item (c_versions c) = Some v /\
                   ic_name out = v_name v /\
                   ic_description out = v_description v /\
                   forall u, In u (c_versions c) -> (key v <= key u)%Z)
      (table_values collections) (i_collections idx).
Proof.
  intros H. rewrite generate_index_unfold in H.
  destruct (build_table isoparse fs root_url files folders bundles w)
    as [w1 [collections | e]] eqn:Eb; [| discriminate].
  destruct (assemble isoparse (table_values collections) None None)
    as [[[out ic] im] | e] eqn:Ea; [| discriminate].
  unfold finish in H. destruct ic as [ic |]; [| discriminate].
  destruct im as [im |]; [| discriminate].
  injection H as -> <-. simpl.
  exists collections. split; [reflexivity |].
  apply assemble_ok in Ea as (Hf & _ & _).
  apply build_table_inv in Eb.
  eapply Forall2_strengthen; [| exact Eb | exact Hf].
  intros c o [_ Hs] (Hid & _ & _ & v & Hl & Hn & Hd).
  split; [exact Hid |]. split; [exact Hs |].
  exists v. repeat split; try assumption.
  apply last_item_oldest; assumption.
Qed.

(** ** The timestamps of the index *)

Lemma created_instants_in (t : table) (c : Collection) :
  In c (table_values t) -> In (isoparse (c_created c)) (created_instants isoparse t).
Proof.
  intros Hc. unfold created_instants.
  apply (List.in_map (fun c => isoparse (c_created c))), Hc.
Qed.

Lemma modified_instants_in (t : table) (c : Collection) (v : Version) :
  In c (table_values t) -> In v (c_versions c) ->
  In (key v) (modified_instants isoparse t).
Proof.
  intros Hc Hv. unfold modified_instants.
  apply List.in_map, List.in_concat. exists (c_versions c).
  split; [apply List.in_map, Hc | exact Hv].
Qed.

(** C6.  When the table built from the sources is not empty,
    [generate_index] returns an index; its [created] is the earliest
    [created] of the records and its [modified] is the latest [modified] of
    all versions of all records (as [isoformat] renders them), so no record
    was created before the index and no version was modified after it. *)
Theorem generate_index_timestamps (fs : FileSystem)
    (name description root_url : string) (files folders : option (list string))
    (bundles : option (list loc)) (uuid : string) (w w' : world)
    (collections : table) :
  build_table isoparse fs root_url files folders bundles w = (w', Ok collections) ->
  collections <> [] ->
  exists idx index_created index_modified,
    generate_index isoparse isoformat fs name description root_url files folders
      bundles uuid w = (w', Ok idx) /\
    i_created idx = isoformat index_created /\
    is_minimum index_created (created_instants isoparse collections) /\
    i_modified idx = isoformat index_modified /\
    is_maximum index_modified (modified_instants isoparse collections) /\
    (forall c, In c (table_values collections) ->
       (index_created <= isoparse (c_created c))%Z /\
       forall v, In v (c_versions c) -> (key v <= index_modified)%Z).
Proof.
  intros Hb Hne. rewrite generate_index_unfold, Hb.
  pose proof (build_table_inv _ _ _ _ _ _ _ _ Hb) as Hinv.
  destruct (assemble_total _ Hinv None None) as [[[out ic] im] Ea].
  rewrite Ea. apply assemble_ok in Ea as (_ & Hic & Him).
  destruct (fold_earliest_none (created_instants isoparse collections))
    as (index_created & Ec & Hmin).
  { destruct collections; [contradiction | discriminate]. }
  destruct (fold_latest_none (modified_instants isoparse collections))
    as (index_modified & Em & Hmax).
  { destruct collections as [|[k c] t]; [contradiction |].
    apply Forall_inv in Hinv. destruct Hinv as [Hv _].
    unfold modified_instants. simpl in *.
    destruct (c_versions c); [contradiction | discriminate]. }
  unfold created_instants in Ec. unfold modified_instants in Em.
  rewrite Ec in Hic. rewrite Em in Him. subst ic im. simpl.
  eexists _, index_created, index_modified.
  split; [reflexivity |]. simpl.
  repeat split; try apply Hmin; try apply Hmax.
  - apply created_instants_in. assumption.
  - intros v Hv. apply Hmax. eapply modified_instants_in; eassumption.
Qed.

(** ** An empty table *)

(** C1 (what the code does).  When no source contributed a collection the
    table is empty, [index_created] is still [None] at line 83, and
    [generate_index] raises AttributeError from [index_created.isoformat()];
    there is no error of its own for the case. *)
Theorem generate_index_empty_table_raises (fs : FileSystem)
    (name description root_url : string) (files folders : option (list string))
    (bundles : option (list loc)) (uuid : string) (w w' : world) :
  build_table isoparse fs root_url files folders bundles w = (w', Ok []) ->
  generate_index isoparse isoformat fs name description root_url files folders
    bundles uuid w = (w', Raise AttributeError).
Proof.
  intros Hb. rewrite generate_index_unfold, Hb. reflexivity.
Qed.

(** ** The trace is only written *)

Lemma with_trace_with_trace {A} (tr1 tr2 : list event) (x : world * result A) :
  with_trace tr1 (with_trace tr2 x) = with_trace (tr1 ++ tr2) x.
Proof. unfold with_trace. simpl. rewrite app_assoc. reflexivity. Qed.

Lemma trace_blind_ret {A} (a : A) : trace_blind (ret a).
Proof. intros s tr. unfold with_trace. simpl. rewrite app_nil_r. reflexivity. Qed.

Lemma trace_blind_raise {A} (e : py_error) : trace_blind (@raise A e).
Proof. intros s tr. unfold with_trace. simpl. rewrite app_nil_r. reflexivity. Qed.

Lemma trace_blind_lift {A} (r : result A) : trace_blind (lift r).
Proof. intros s tr. unfold with_trace. simpl. rewrite app_nil_r. reflexivity. Qed.

Lemma trace_blind_emit (e : event) : trace_blind (emit e).
Proof. intros s tr. reflexivity. Qed.

Lemma trace_blind_get_bundle (b : loc) : trace_blind (get_bundle b).
Proof. intros s tr. unfold with_trace. simpl. rewrite app_nil_r. reflexivity. Qed.

Lemma trace_blind_set_objects (b : loc) (ov : ObjectsValue) :
  trace_blind (set_objects b ov).
Proof. intros s tr. unfold with_trace. simpl. rewrite app_nil_r. reflexivity. Qed.

Lemma trace_blind_bind {A B} (m : M A) (k : A -> M B) :
  trace_blind m -> (forall a, trace_blind (k a)) -> trace_blind (bind m k).
Proof.
  intros Hm Hk s tr. unfold bind. rewrite Hm.
  destruct (m (start s)) as [[s1 tr1] [a | e]]; unfold with_trace at 1; simpl.
  - rewrite Hk. rewrite (Hk a s1 tr1). rewrite with_trace_with_trace. reflexivity.
  - reflexivity.
Qed.

Create HintDb trace.
Create HintDb store.

#[local] Hint Resolve trace_blind_ret trace_blind_raise trace_blind_lift
  trace_blind_emit trace_blind_get_bundle trace_blind_set_objects : trace.

Ltac trace_blind_step :=
  repeat first
    [ apply trace_blind_bind; [| intros ? ]
    | match goal with
      | |- trace_blind (if ?c then _ else _) => destruct c
      | |- trace_blind (match ?x with _ => _ end) => destruct x
      end
    | solve [ auto with trace ] ].

Lemma trace_blind_scan_folders (fs : FileSystem) (folders : list string) :
  trace_blind (scan_folders fs folders).
Proof. induction folders as [|folder rest IH]; simpl; trace_blind_step. Qed.

Lemma trace_blind_clean_bundles (bundles : list loc) :
  trace_blind (clean_bundles bundles).
Proof. induction bundles as [|b rest IH]; simpl; trace_blind_step. Qed.

Lemma trace_blind_parse_files (fs : FileSystem) (root_url : string)
    (files : list string) :
  forall t, trace_blind (parse_files isoparse fs root_url files t).
Proof. induction files as [|f rest IH]; intros t; simpl; trace_blind_step. Qed.

Lemma trace_blind_transfer_bundles (cleaned : list loc) :
  forall t, trace_blind (transfer_bundles isoparse cleaned t).
Proof. induction cleaned as [|b rest IH]; intros t; simpl; trace_blind_step. Qed.

#[local] Hint Resolve trace_blind_scan_folders trace_blind_clean_bundles
  trace_blind_parse_files trace_blind_transfer_bundles : trace.

Lemma trace_blind_build_table (fs : FileSystem) (root_url : string)
    (files folders : option (list string)) (bundles : option (list loc)) :
  trace_blind (build_table isoparse fs root_url files folders bundles).
Proof. unfold build_table. trace_blind_step. Qed.

Lemma trace_blind_generate_index (fs : FileSystem) (name description root_url : string)
    (files folders : option (list string)) (bundles : option (list loc))
    (uuid : string) :
  trace_blind (generate_index isoparse isoformat fs name description root_url files
                 folders bundles uuid).
Proof.
  unfold generate_index.
  apply trace_blind_bind; [apply trace_blind_build_table | intros t].
  trace_blind_step.
Qed.

(** ** Files and folders together *)

Lemma build_table_files_ignored (fs : FileSystem) (root_url : string)
    (files folders : option (list string)) (bundles : option (list loc)) (w : world) :
  truthy files = true -> truthy folders = true ->
  build_table isoparse fs root_url files folders bundles w =
  build_table isoparse fs root_url None folders bundles
    {| w_store := w_store w; w_trace := w_trace w ++ [EPrint usage_message] |}.
Proof.
  intros Hfi Hfo. unfold build_table. rewrite Hfi, Hfo. reflexivity.
Qed.

(** C10.  With both [files] and [folders] non-empty the call goes on after
    the message: it returns what the call with [folders] alone returns (the
    same index or the same exception, for the same uuid4 value), leaves the
    caller's bundles in the same state, and does the same listings and
    reads, after the one message. *)
Theorem generate_index_files_discarded (fs : FileSystem)
    (name description root_url : string) (files folders : option (list string))
    (bundles : option (list loc)) (uuid : string) (store : gmap loc Bundle) :
  truthy files = true -> truthy folders = true ->
  let both := generate_index isoparse isoformat fs name description root_url
                files folders bundles uuid (start store) in
  let only_folders := generate_index isoparse isoformat fs name description root_url
                        None folders bundles uuid (start store) in
  snd both = snd only_folders /\
  w_store (fst both) = w_store (fst only_folders) /\
  w_trace (fst both) = EPrint usage_message :: w_trace (fst only_folders).
Proof.
  intros Hfi Hfo both only_folders. subst both only_folders.
  rewrite !generate_index_unfold.
  rewrite (build_table_files_ignored _ _ _ _ _ _ Hfi Hfo). simpl.
  rewrite trace_blind_build_table.
  destruct (build_table isoparse fs root_url None folders bundles (start store))
    as [[s1 tr1] [t | e]]; simpl; repeat split.
Qed.

(** ** Files and folders leave the caller's bundles alone *)

Lemma store_preserving_ret {A} (a : A) : store_preserving (ret a).
Proof. intros w. reflexivity. Qed.

Lemma store_preserving_lift {A} (r : result A) : store_preserving (lift r).
Proof. intros w. reflexivity. Qed.

Lemma store_preserving_emit (e : event) : store_preserving (emit e).
Proof. intros w. reflexivity. Qed.

Lemma store_preserving_bind {A B} (m : M A) (k : A -> M B) :
  store_preserving m -> (forall a, store_preserving (k a)) ->
  store_preserving (bind m k).
Proof.
  intros Hm Hk w. unfold bind. specialize (Hm w).
  destruct (m w) as [w1 [a | e]]; simpl in *; [| exact Hm].
  rewrite Hk. exact Hm.
Qed.

#[local] Hint Resolve store_preserving_ret store_preserving_lift
  store_preserving_emit : store.

Ltac store_preserving_step :=
  repeat first
    [ apply store_preserving_bind; [| intros ? ]
    | match goal with
      | |- store_preserving (if ?c then _ else _) => destruct c
      end
    | solve [ auto with store ] ].

Lemma store_preserving_scan_folders (fs : FileSystem) (folders : list string) :
  store_preserving (scan_folders fs folders).
Proof. induction folders as [|folder rest IH]; simpl; store_preserving_step. Qed.

Lemma store_preserving_parse_files (fs : FileSystem) (root_url : string)
    (files : list string) :
  forall t, store_preserving (parse_files isoparse fs root_url files t).
Proof. induction files as [|f rest IH]; intros t; simpl; store_preserving_step. Qed.

#[local] Hint Resolve store_preserving_scan_folders store_preserving_parse_files : store.


(** ** Bundles without a collection object *)

(** A dict: there is no attribute [id], and line 44 raises. *)
Lemma clean_bundles_dict_raises (b : loc) (rest : list loc) (w : world)
    (bundle : Bundle) :
  w_store w !! b = Some bundle ->
  fst (any_collection (b_objects bundle)) = false ->
  b_attr_id bundle = None ->
  clean_bundles (b :: rest) w =
  ({| w_store := alter (fun x => {| b_attr_id := b_attr_id x;
                                    b_objects := snd (any_collection (b_objects bundle)) |})
                   b (w_store w);
      w_trace := w_trace w |}, Raise AttributeError).
Proof.
  intros Hb Hany Hid. simpl. unfold bind, get_bundle. rewrite Hb.
  destruct (any_collection (b_objects bundle)) as [has objects]. simpl in Hany.
  subst has. simpl. rewrite Hid. reflexivity.
Qed.

(** An object that has the attribute: the message names it and the loop
    goes on with the other bundles. *)
Lemma clean_bundles_object_skipped (b : loc) (rest : list loc) (w : world)
    (bundle : Bundle) (bundle_id : string) :
  w_store w !! b = Some bundle ->
  fst (any_collection (b_objects bundle)) = false ->
  b_attr_id bundle = Some bundle_id ->
  clean_bundles (b :: rest) w =
  clean_bundles rest
    {| w_store := alter (fun x => {| b_attr_id := b_attr_id x;
                                     b_objects := snd (any_collection (b_objects bundle)) |})
                    b (w_store w);
       w_trace := w_trace w ++ [EPrint (bundle_message bundle_id)] |}.
Proof.
  intros Hb Hany Hid. simpl. unfold bind, get_bundle. rewrite Hb.
  destruct (any_collection (b_objects bundle)) as [has objects]. simpl in Hany.
  subst has. simpl. rewrite Hid. reflexivity.
Qed.

(** Passed first, such a dict ends the call before anything is printed. *)
Lemma generate_index_dict_bundle_raises (fs : FileSystem)
    (name description root_url uuid : string) (store : gmap loc Bundle)
    (b : loc) (rest : list loc) (bundle : Bundle) :
  store !! b = Some bundle ->
  fst (any_collection (b_objects bundle)) = false ->
  b_attr_id bundle = None ->
  exists w,
    generate_index isoparse isoformat fs name description root_url None None
      (Some (b :: rest)) uuid (start store) = (w, Raise AttributeError) /\
    w_trace w = [].
Proof.
  intros Hb Hany Hid. rewrite generate_index_unfold.
  unfold build_table, bind. cbn [truthy andb list_of ret].
  rewrite (clean_bundles_dict_raises b rest (start store) bundle Hb Hany Hid).
  eexists. split; reflexivity.
Qed.

(** ** Running twice *)


End Properties.

(** * The code on the sample inputs *)

(** The scenario of the specification: source A, then source B, one identity. *)
Example scenario_A_then_B :
  extract_collection isoparse_digits [collection_B]
    (extract_collection isoparse_digits [collection_A] [] "http://r/a") "http://r/b" =
  [("X", {| c_id := "X";
            c_created := "2020-01-01T00:00:00Z";
            c_versions :=
              [ {| v_version := "1.1"; v_url := "http://r/b";
                   v_modified := "2021-01-01T00:00:00Z";
                   v_name := "Beta"; v_description := "second" |};
                {| v_version := "1.0"; v_url := "http://r/a";
                   v_modified := "2020-02-01T00:00:00Z";
                   v_name := "Alpha"; v_description := "first" |} ] |})].
Proof. reflexivity. Qed.

Lemma extract_collection_versions_invariant_witness :
  table_inv isoparse_digits [] /\
  table_inv isoparse_digits
    (extract_collection isoparse_digits
       [collection_A; technique; collection_Y; collection_B] [] "http://r/a").
Proof.
  split; [constructor |].
  apply (extract_collection_versions_invariant isoparse_digits
           [collection_A; technique; collection_Y; collection_B] [] "http://r/a").
  constructor.
Defined.

Lemma generate_index_name_from_last_version_witness :
  exists w' idx,
    generate_index isoparse_digits isoformat_digits sample_fs "index" "demo"
      "http://r" None (Some ["dir"]) None "uuid-1" (start ∅) = (w', Ok idx) /\
    exists collections,
      build_table isoparse_digits sample_fs "http://r" None (Some ["dir"]) None
        (start ∅) = (w', Ok collections) /\
      Forall2
        (fun c out =>
           ic_id out = c_id c /\
           desc_sorted isoparse_digits (c_versions c) /\
           exists v, last_item (c_versions c) = Some v /\
                     ic_name out = v_name v /\
                     ic_description out = v_description v /\
                     forall u, In u (c_versions c) ->
                       (version_key isoparse_digits v <= version_key isoparse_digits u)%Z)
        (table_values collections) (i_collections idx).
Proof.
  eexists _, _. split; [vm_compute; reflexivity |].
  apply (generate_index_name_from_last_version isoparse_digits isoformat_digits
           sample_fs "index" "demo" "http://r" None (Some ["dir"]) None "uuid-1").
  vm_compute. reflexivity.
Defined.

(** The index of the directory [dir]: one collection with two versions, the
    newer first, under the name of the older. *)
Example generate_index_dir :
  snd (generate_index isoparse_digits isoformat_digits sample_fs "index" "demo"
         "http://r" None (Some ["dir"]) None "uuid-1" (start ∅)) =
  Ok {| i_id := "uuid-1";
        i_name := "index";
        i_description := "demo";
        i_created := "20200101000000";
        i_modified := "20210101000000";
        i_collections :=
          [ {| ic_id := "X";
               ic_created := "2020-01-01T00:00:00Z";
               ic_versions :=
                 [ {| iv_version := "1.1"; iv_url := "http://r/dir/foo-1.1.json";
                      iv_modified := "2021-01-01T00:00:00Z" |};
                   {| iv_version := "1.0"; iv_url := "http://r/dir/foo-1.0.json";
                      iv_modified := "2020-02-01T00:00:00Z" |} ];
               ic_name := "Alpha";
               ic_description := "first" |} ] |}.
Proof. vm_compute. reflexivity. Qed.

Lemma generate_index_timestamps_witness :
  exists w' collections,
    build_table isoparse_digits sample_fs "http://r/" (Some ["a.json"; "dir/foo-1.1.json"])
      None None (start ∅) = (w', Ok collections) /\
    collections <> [] /\
    exists idx index_created index_modified,
      generate_index isoparse_digits isoformat_digits sample_fs "index" "demo"
        "http://r/" (Some ["a.json"; "dir/foo-1.1.json"]) None None "uuid-1" (start ∅)
        = (w', Ok idx) /\
      i_created idx = isoformat_digits index_created /\
      is_minimum index_created (created_instants isoparse_digits collections) /\
      i_modified idx = isoformat_digits index_modified /\
      is_maximum index_modified (modified_instants isoparse_digits collections) /\
      (forall c, In c (table_values collections) ->
         (index_created <= isoparse_digits (c_created c))%Z /\
         forall v, In v (c_versions c) ->
           (version_key isoparse_digits v <= index_modified)%Z).
Proof.
  eexists _, _. split; [vm_compute; reflexivity |].
  split; [discriminate |].
  apply (generate_index_timestamps isoparse_digits isoformat_digits sample_fs
           "index" "demo" "http://r/" (Some ["a.json"; "dir/foo-1.1.json"]) None None
           "uuid-1").
  - vm_compute. reflexivity.
  - discriminate.
Defined.

Lemma generate_index_empty_table_raises_witness :
  build_table isoparse_digits sample_fs "http://r" None None None (start ∅)
    = (start ∅, Ok []) /\
  generate_index isoparse_digits isoformat_digits sample_fs "index" "demo" "http://r"
    None None None "uuid-1" (start ∅) = (start ∅, Raise AttributeError).
Proof.
  split; [reflexivity |].
  apply (generate_index_empty_table_raises isoparse_digits isoformat_digits sample_fs
           "index" "demo" "http://r" None None None "uuid-1").
  reflexivity.
Defined.

Lemma generate_index_files_discarded_witness :
  truthy (Some ["a.json"]) = true /\ truthy (Some ["dir"]) = true /\
  snd (generate_index isoparse_digits isoformat_digits sample_fs "index" "demo"
         "http://r" (Some ["a.json"]) (Some ["dir"]) None "uuid-1" (start ∅)) =
  snd (generate_index isoparse_digits isoformat_digits sample_fs "index" "demo"
         "http://r" None (Some ["dir"]) None "uuid-1" (start ∅)).
Proof.
  split; [reflexivity |]. split; [reflexivity |].
  apply (generate_index_files_discarded isoparse_digits isoformat_digits sample_fs
           "index" "demo" "http://r" (Some ["a.json"]) (Some ["dir"]) None "uuid-1" ∅);
    reflexivity.
Defined.

(** C2 (what the code does).  [files] and [folders] together: the message is
    printed, then the folder is listed, its files are opened and an index is
    returned; the call is not rejected, and [a.json] is not read. *)
Theorem generate_index_files_and_folders_not_rejected :
  exists w idx,
    generate_index isoparse_digits isoformat_digits sample_fs "index" "demo"
      "http://r" (Some ["a.json"]) (Some ["dir"]) None "uuid-1" (start ∅)
      = (w, Ok idx) /\
    w_trace w = [EPrint usage_message; EListdir "dir";
                 EOpen "dir/foo-1.0.json"; EOpen "dir/foo-1.1.json"] /\
    List.map ic_id (i_collections idx) = ["X"].
Proof.
  eexists _, _. split; [vm_compute; reflexivity |].
  split; reflexivity.
Qed.

(** The candidates of the directory of the specification's example. *)
Example scan_folders_dir :
  snd (scan_folders sample_fs ["dir"] (start ∅)) =
  Ok ["dir/foo-1.0.json"; "dir/foo-1.1.json"].
Proof. vm_compute. reflexivity. Qed.

(** The file name the specification gives as an example of the pattern does
    not match: [&] is no word character and the match starts at the first
    character of the name. *)
Example version_regex_attack_data :
  re_match version_regex "att&ck-data-8.2.json" = false.
Proof. vm_compute. reflexivity. Qed.

(** C7 (what the code does).  A file whose name goes on after [.json] is
    kept as a candidate, whatever follows, and so is one with another
    character in the place of the dot: the pattern is matched against the
    beginning of the name only, and its last dot stands for any character. *)
Theorem scan_folders_keeps_names_not_ending_in_json :
  snd (scan_folders sample_fs ["backup"] (start ∅)) = Ok ["backup/foo-1.0.json.bak"] /\
  str_endswith "foo-1.0.json.bak" ".json" = false /\
  re_match version_regex "foo-1xjson" = true /\
  str_endswith "foo-1xjson" ".json" = false /\
  forall rest, re_match version_regex (String.append "foo-1.0.json" rest) = true.
Proof.
  split; [vm_compute; reflexivity |].
  split; [vm_compute; reflexivity |].
  split; [vm_compute; reflexivity |].
  split; [vm_compute; reflexivity |].
  intros rest. apply re_match_append. vm_compute. reflexivity.
Qed.

(** C8 (what the code does).  A bundle that is a dict and holds no
    collection object: the message cannot be built, since a dict has no
    attribute [id]; AttributeError is raised, nothing is printed, and the
    bundle after it is never looked at. *)
Theorem generate_index_bundle_without_collection_raises :
  exists w,
    generate_index isoparse_digits isoformat_digits sample_fs "index" "demo"
      "http://r" None None (Some [0%nat; 1%nat]) "uuid-1" (start sample_store)
      = (w, Raise AttributeError) /\
    w_trace w = [] /\
    w_store w !! 1%nat = Some bundle_with_collection.
Proof.
  eexists. split; [vm_compute; reflexivity |].
  split; reflexivity.
Qed.


(** * More about [extract_collection] *)

Section Extraction.

Variable isoparse : string -> Z.

Lemma keys_table_alter (f : Collection -> Collection) (k : string) (t : table) :
  keys (table_alter f k t) = keys t.
Proof.
  unfold keys. induction t as [|[k0 c] t IH]; simpl; [reflexivity |].
  destruct (String.eqb k k0); simpl; [reflexivity | rewrite IH; reflexivity].
Qed.

Lemma table_mem_keys (k : string) (t : table) :
  table_mem k t = existsb (String.eqb k) (keys t).
Proof.
  unfold table_mem, keys. induction t as [|[k0 c] t IH]; simpl; [reflexivity |].
  destruct (String.eqb k k0); [reflexivity | exact IH].
Qed.

Lemma table_mem_in (k : string) (t : table) :
  table_mem k t = true <-> In k (keys t).
Proof.
  rewrite table_mem_keys, existsb_exists. split.
  - intros (k' & Hin & He). apply String.eqb_eq in He. subst. exact Hin.
  - intros Hin. exists k. split; [exact Hin | apply String.eqb_refl].
Qed.

Lemma keys_add_version (url : string) (t : table) (x : StixObject) :
  keys (add_version isoparse url t x) =
  if table_mem (o_id x) t then keys t else keys t ++ [o_id x].
Proof.
  unfold add_version. rewrite keys_table_alter.
  destruct (table_mem (o_id x) t); [reflexivity |].
  unfold keys. rewrite List.map_app. reflexivity.
Qed.

(** X1.  The records appear in the order in which their identities were
    first seen: [extract_collection] keeps the keys of the table in place and
    appends the identities that are new, each once, in the order of their
    first collection object in the bundle. *)
Theorem extract_collection_keys_first_seen (objects : list StixObject)
    (collections : table) (url : string) :
  keys (extract_collection isoparse objects collections url) =
  keys collections ++ first_seen (keys collections) (collection_ids objects).
Proof.
  revert collections. induction objects as [|x objects IH]; intros collections.
  - unfold extract_collection, collection_ids. simpl. rewrite app_nil_r. reflexivity.
  - rewrite extract_collection_cons, IH. unfold collection_ids. simpl.
    destruct (is_collection x); simpl; [| reflexivity].
    rewrite keys_add_version, <- table_mem_keys.
    destruct (table_mem (o_id x) collections); [reflexivity |].
    rewrite <- app_assoc. reflexivity.
Qed.

Lemma table_alter_forall (P : string * Collection -> Prop)
    (f : Collection -> Collection) (k : string) (t : table) :
  (forall k0 c, P (k0, c) -> P (k0, f c)) ->
  Forall P t -> Forall P (table_alter f k t).
Proof.
  intros Hf. induction t as [|[k0 c] t IH]; simpl; intros Ht; [constructor |].
  apply Forall_cons_iff in Ht as [H0 Ht].
  destruct (String.eqb k k0); constructor; auto.
Qed.

Lemma add_version_well_keyed (url : string) (t : table) (x : StixObject) :
  well_keyed t -> well_keyed (add_version isoparse url t x).
Proof.
  intros [Hnd Hid]. split.
  - rewrite keys_add_version.
    destruct (table_mem (o_id x) t) eqn:E; [exact Hnd |].
    apply NoDup_app. split; [exact Hnd |]. split.
    + intros k Hk [<- | []]%list_elem_of_In.
      apply list_elem_of_In, table_mem_in in Hk. congruence.
    + apply NoDup_singleton.
  - unfold add_version. apply table_alter_forall; [intros k0 c Hc; exact Hc |].
    destruct (table_mem (o_id x) t); [exact Hid |].
    apply Forall_app. split; [exact Hid |]. constructor; [reflexivity | constructor].
Qed.

(** X2.  Identities stay unique: a table in which no key occurs twice and
    every record is stored under its own [id] is still such a table after
    [extract_collection], whatever the bundle holds. *)
Theorem extract_collection_well_keyed (objects : list StixObject)
    (collections : table) (url : string) :
  well_keyed collections ->
  well_keyed (extract_collection isoparse objects collections url).
Proof.
  revert collections. induction objects as [|x objects IH]; intros collections Hw;
    [exact Hw |].
  rewrite extract_collection_cons. apply IH.
  destruct (is_collection x); [apply add_version_well_keyed |]; exact Hw.
Qed.

(** X3.  Records of other identities are not touched: when the bundle holds
    no collection object of identity [k], the table has under [k] after the
    call what it had before (the same record, or none). *)
Theorem extract_collection_frame (objects : list StixObject) (collections : table)
    (url k : string) :
  objects_of k objects = [] ->
  table_get k (extract_collection isoparse objects collections url) =
  table_get k collections.
Proof.
  revert collections. induction objects as [|x objects IH]; intros collections Hk;
    [reflexivity |].
  rewrite extract_collection_cons. unfold objects_of in Hk. simpl in Hk.
  destruct (is_collection x) eqn:Ec; simpl in Hk.
  - destruct (String.eqb_spec (o_id x) k) as [He | Hne]; [discriminate |].
    rewrite (IH _ Hk), table_get_add_version.
    destruct (String.eqb_spec k (o_id x)); [congruence | reflexivity].
  - apply IH, Hk.
Qed.

Lemma versions_of_extract_perm (objects : list StixObject) (collections : table)
    (url k : string) :
  Permutation (versions_of k (extract_collection isoparse objects collections url))
              (versions_of k collections ++ inserted k objects url).
Proof.
  revert collections. induction objects as [|x objects IH]; intros collections.
  - unfold inserted, extract_collection. simpl. rewrite app_nil_r. reflexivity.
  - rewrite extract_collection_cons. eapply perm_trans; [apply IH |].
    unfold inserted, objects_of. simpl.
    rewrite (String.eqb_sym (o_id x) k).
    destruct (is_collection x); simpl; [| reflexivity].
    rewrite versions_of_add_version.
    destruct (String.eqb k (o_id x)); simpl; [| reflexivity].
    eapply perm_trans;
      [apply Permutation_app_tail, sort_desc_perm | rewrite <- app_assoc; reflexivity].
Qed.

(** X4.  No version is lost, made up or repeated: the versions of the record
    [k] after the call are, up to their order, those it had and one per
    collection object of identity [k] in the bundle, each with the url of
    the call; so the list grows by the number of these objects. *)
Theorem extract_collection_versions_permutation (objects : list StixObject)
    (collections : table) (url k : string) :
  Permutation (versions_of k (extract_collection isoparse objects collections url))
              (versions_of k collections ++ inserted k objects url) /\
  length (versions_of k (extract_collection isoparse objects collections url)) =
  (length (versions_of k collections) + length (objects_of k objects))%nat /\
  Forall (fun v => v_url v = url) (inserted k objects url).
Proof.
  pose proof (versions_of_extract_perm objects collections url k) as Hp.
  split; [exact Hp |]. split.
  - rewrite (Permutation_length Hp), length_app. unfold inserted.
    rewrite length_map. reflexivity.
  - unfold inserted. apply Forall_forall. intros v Hv.
    apply list_elem_of_In, in_map_iff in Hv as (x & <- & _). reflexivity.
Qed.

Lemma list_filter_perm {A} (f : A -> bool) (l1 l2 : list A) :
  Permutation l1 l2 -> Permutation (List.filter f l1) (List.filter f l2).
Proof.
  induction 1 as [| x l1 l2 _ IH | x y l | l1 l2 l3 _ IH1 _ IH2]; simpl.
  - constructor.
  - destruct (f x); [constructor |]; exact IH.
  - destruct (f x), (f y); try reflexivity. constructor.
  - eapply perm_trans; eassumption.
Qed.

(** Reading one bundle after another is reading their objects in one go. *)
Lemma extract_collection_app (objects1 objects2 : list StixObject)
    (collections : table) (url : string) :
  extract_collection isoparse (objects1 ++ objects2) collections url =
  extract_collection isoparse objects2
    (extract_collection isoparse objects1 collections url) url.
Proof.
  unfold extract_collection. rewrite List.filter_app, fold_left_app. reflexivity.
Qed.

Lemma extract_collection_versions_sorted (objects : list StixObject)
    (collections : table) (url k : string) :
  desc_sorted isoparse (versions_of k collections) ->
  desc_sorted isoparse (versions_of k (extract_collection isoparse objects collections url)).
Proof.
  revert collections. induction objects as [|x objects IH]; intros collections Hs;
    [exact Hs |].
  rewrite extract_collection_cons. apply IH.
  destruct (is_collection x); [| exact Hs].
  rewrite versions_of_add_version.
  destruct (String.eqb k (o_id x)); [apply sort_desc_sorted | exact Hs].
Qed.

(** Two descending lists with the same elements, no two of them modified at
    the same instant, are the same list. *)
Lemma desc_sorted_perm_unique (l1 : list Version) :
  forall l2,
    desc_sorted isoparse l1 -> desc_sorted isoparse l2 -> Permutation l1 l2 ->
    NoDup (List.map (version_key isoparse) l1) -> l1 = l2.
Proof.
  unfold desc_sorted.
  induction l1 as [|x l1 IH]; intros l2 Hs1 Hs2 Hp Hnd.
  - apply Permutation_nil in Hp. subst. reflexivity.
  - destruct l2 as [|y l2]; [apply Permutation_sym, Permutation_nil in Hp; discriminate |].
    apply StronglySorted_inv in Hs1 as [Hs1 Hx].
    apply StronglySorted_inv in Hs2 as [Hs2 Hy].
    simpl in Hnd. apply NoDup_cons in Hnd as [Hnx Hnd].
    assert (Hxy : x = y).
    { assert (Hin : In x (y :: l2)) by (apply (Permutation_in _ Hp); left; reflexivity).
      destruct Hin as [-> | Hin]; [reflexivity |].
      assert (Hin' : In y (x :: l1))
        by (apply (Permutation_in _ (Permutation_sym Hp)); left; reflexivity).
      destruct Hin' as [-> | Hin']; [reflexivity |].
      rewrite List.Forall_forall in Hx, Hy.
      specialize (Hx y Hin'). specialize (Hy x Hin).
      exfalso. apply Hnx. apply list_elem_of_In.
      replace (version_key isoparse x) with (version_key isoparse y) by lia.
      apply List.in_map, Hin'. }
    subst y. f_equal. apply IH; try assumption.
    apply (Permutation_cons_inv Hp).
Qed.

(** X5.  When no two versions of the record [k] are modified at the same
    instant, the order of the collection objects in the bundle does not
    show in its version list: two bundles with the same objects in another
    order leave the same versions of [k], in the same order. *)
Theorem extract_collection_order_irrelevant (objects1 objects2 : list StixObject)
    (collections : table) (url k : string) :
  Permutation objects1 objects2 ->
  desc_sorted isoparse (versions_of k collections) ->
  NoDup (List.map (version_key isoparse)
           (versions_of k collections ++ inserted k objects1 url)) ->
  versions_of k (extract_collection isoparse objects1 collections url) =
  versions_of k (extract_collection isoparse objects2 collections url).
Proof.
  intros Hp Hs Hnd.
  pose proof (versions_of_extract_perm objects1 collections url k) as Hp1.
  pose proof (versions_of_extract_perm objects2 collections url k) as Hp2.
  apply desc_sorted_perm_unique.
  - apply extract_collection_versions_sorted, Hs.
  - apply extract_collection_versions_sorted, Hs.
  - eapply perm_trans; [exact Hp1 |].
    eapply perm_trans; [| apply Permutation_sym, Hp2].
    apply Permutation_app_head. unfold inserted, objects_of.
    apply Permutation_map, list_filter_perm, Hp.
  - rewrite Hp1. exact Hnd.
Qed.

End Extraction.

(** * The run of [generate_index], stage by stage *)

Section Pipeline.

Variable isoparse : string -> Z.
Variable isoformat : Z -> string.

Lemma after_events_nil (w : world) : after_events w [] = w.
Proof. destruct w. unfold after_events. simpl. rewrite app_nil_r. reflexivity. Qed.

Lemma after_events_cons (w : world) (e : event) (events : list event) :
  after_events (after_events w [e]) events = after_events w (e :: events).
Proof. unfold after_events. simpl. rewrite <- app_assoc. reflexivity. Qed.

Lemma scan_folders_ok (fs : FileSystem) (folders : list string) :
  Forall (listable fs) folders ->
  forall w,
    scan_folders fs folders w =
    (after_events w (List.map EListdir folders),
     Ok (List.flat_map (candidates fs) folders)).
Proof.
  induction 1 as [|folder folders [names Hn] _ IH]; intros w; simpl.
  - rewrite after_events_nil. reflexivity.
  - unfold bind, emit, lift. rewrite Hn.
    fold (after_events w [EListdir folder]). rewrite IH, after_events_cons.
    unfold candidates, ret. rewrite Hn. reflexivity.
Qed.

Lemma scan_folders_fail (fs : FileSystem) (done : list string) (bad : string)
    (rest : list string) (e : py_error) :
  Forall (listable fs) done -> fs_listdir fs bad = Raise e ->
  forall w,
    scan_folders fs (done ++ bad :: rest) w =
    (after_events w (List.map EListdir (done ++ [bad])), Raise e).
Proof.
  intros Hd Hb. induction Hd as [|folder done [names Hn] _ IH]; intros w; simpl.
  - unfold bind, emit, lift. rewrite Hb. reflexivity.
  - unfold bind, emit, lift. rewrite Hn.
    fold (after_events w [EListdir folder]). rewrite IH, after_events_cons.
    reflexivity.
Qed.

Lemma scan_folders_inv (fs : FileSystem) (folders : list string) :
  forall w w' found,
    scan_folders fs folders w = (w', Ok found) -> Forall (listable fs) folders.
Proof.
  induction folders as [|folder folders IH]; intros w w' found H; [constructor |].
  simpl in H. apply bind_ok in H as (w1 & [] & _ & H).
  apply bind_ok in H as (w2 & names & Hn & H).
  apply bind_ok in H as (w3 & more & Hm & _).
  constructor; [| eapply IH; exact Hm].
  unfold lift in Hn. injection Hn as _ Hn. exists names. exact Hn.
Qed.

Lemma parse_files_ok (fs : FileSystem) (root_url : string) (files : list string) :
  Forall (loadable fs) files ->
  forall t w,
    parse_files isoparse fs root_url files t w =
    (after_events w (List.map EOpen files),
     Ok (table_of_files isoparse fs root_url files t)).
Proof.
  induction 1 as [|f files [objects Ho] _ IH]; intros t w; simpl.
  - rewrite after_events_nil. reflexivity.
  - unfold bind, emit, lift. rewrite Ho.
    fold (after_events w [EOpen f]). rewrite IH, after_events_cons.
    unfold loaded. rewrite Ho. reflexivity.
Qed.

Lemma parse_files_fail (fs : FileSystem) (root_url : string) (done : list string)
    (bad : string) (rest : list string) (e : py_error) :
  Forall (loadable fs) done -> fs_load fs bad = Raise e ->
  forall t w,
    parse_files isoparse fs root_url (done ++ bad :: rest) t w =
    (after_events w (List.map EOpen (done ++ [bad])), Raise e).
Proof.
  intros Hd Hb. induction Hd as [|f done [objects Ho] _ IH]; intros t w; simpl.
  - unfold bind, emit, lift. rewrite Hb. reflexivity.
  - unfold bind, emit, lift. rewrite Ho.
    fold (after_events w [EOpen f]). rewrite IH, after_events_cons.
    reflexivity.
Qed.

Lemma parse_files_inv_loadable (fs : FileSystem) (root_url : string)
    (files : list string) :
  forall t w w' t',
    parse_files isoparse fs root_url files t w = (w', Ok t') ->
    Forall (loadable fs) files.
Proof.
  induction files as [|f files IH]; intros t w w' t' H; [constructor |].
  simpl in H. apply bind_ok in H as (w1 & [] & _ & H).
  apply bind_ok in H as (w2 & objects & Ho & H).
  constructor; [| eapply IH; exact H].
  unfold lift in Ho. injection Ho as _ Ho. exists objects. exact Ho.
Qed.

Lemma build_table_files_mode (fs : FileSystem) (root_url : string)
    (files folders : option (list string)) (bundles : option (list loc)) (w : world) :
  truthy folders = false -> truthy bundles = false ->
  build_table isoparse fs root_url files folders bundles w =
  parse_files isoparse fs root_url (list_of files) [] w.
Proof.
  intros Hfo Hb. unfold build_table, bind, ret. rewrite Hfo, Hb, andb_false_r.
  destruct files as [[|f files] |]; simpl; try reflexivity.
  destruct (bind _ _ w) as [w1 [t | e]]; reflexivity.
Qed.

Lemma build_table_folder_mode (fs : FileSystem) (root_url : string)
    (files folders : option (list string)) (bundles : option (list loc)) (w : world) :
  truthy files = false -> truthy folders = true -> truthy bundles = false ->
  build_table isoparse fs root_url files folders bundles w =
  bind (scan_folders fs (list_of folders))
       (fun found => parse_files isoparse fs root_url found []) w.
Proof.
  intros Hfi Hfo Hb. unfold build_table, bind, ret. rewrite Hfi, Hfo, Hb. simpl.
  destruct (scan_folders fs (list_of folders) w) as [w1 [found | e]]; [| reflexivity].
  destruct found as [|f found]; simpl; [reflexivity |].
  destruct (bind _ _ w1) as [w2 [t | e]]; reflexivity.
Qed.

(** X6.  Called with files only, and every file readable, [generate_index]
    opens the files given, each once, in the order given; it lists no folder,
    prints neither of its two messages and leaves the caller's objects
    alone; the table it assembles is the one obtained by reading the files
    one after the other. *)
Theorem generate_index_files_read_in_order (fs : FileSystem)
    (name description root_url : string) (files folders : option (list string))
    (bundles : option (list loc)) (uuid : string) (store : gmap loc Bundle) :
  truthy folders = false -> truthy bundles = false ->
  Forall (loadable fs) (list_of files) ->
  build_table isoparse fs root_url files folders bundles (start store) =
    ({| w_store := store; w_trace := List.map EOpen (list_of files) |},
     Ok (table_of_files isoparse fs root_url (list_of files) [])) /\
  fst (generate_index isoparse isoformat fs name description root_url files folders
         bundles uuid (start store)) =
    {| w_store := store; w_trace := List.map EOpen (list_of files) |}.
Proof.
  intros Hfo Hb Hl.
  assert (Hbt : build_table isoparse fs root_url files folders bundles (start store) =
                ({| w_store := store; w_trace := List.map EOpen (list_of files) |},
                 Ok (table_of_files isoparse fs root_url (list_of files) []))).
  { rewrite (build_table_files_mode _ _ _ _ _ _ Hfo Hb), (parse_files_ok _ _ _ Hl).
    reflexivity. }
  split; [exact Hbt |].
  rewrite generate_index_unfold, Hbt. reflexivity.
Qed.

(** X7.  The first file that cannot be read ends the call with the error of
    the read: the files before it were opened, in order, the files after it
    are never opened, and no index is returned. *)
Theorem generate_index_stops_at_unreadable_file (fs : FileSystem)
    (name description root_url : string) (done : list string) (bad : string)
    (rest : list string) (folders : option (list string))
    (bundles : option (list loc)) (uuid : string) (store : gmap loc Bundle)
    (e : py_error) :
  truthy folders = false -> truthy bundles = false ->
  Forall (loadable fs) done -> fs_load fs bad = Raise e ->
  generate_index isoparse isoformat fs name description root_url
    (Some (done ++ bad :: rest)) folders bundles uuid (start store) =
  ({| w_store := store; w_trace := List.map EOpen (done ++ [bad]) |}, Raise e).
Proof.
  intros Hfo Hb Hd He.
  rewrite generate_index_unfold, (build_table_files_mode _ _ _ _ _ _ Hfo Hb).
  simpl list_of. rewrite (parse_files_fail _ _ _ _ _ _ Hd He). reflexivity.
Qed.

(** X8.  Called with folders only, every folder listable and every candidate
    readable, [generate_index] lists all folders, in order, before it opens
    the first file, and then opens the candidates folder by folder, in the
    order of the listings. *)
Theorem generate_index_lists_before_reading (fs : FileSystem)
    (name description root_url : string) (files folders : option (list string))
    (bundles : option (list loc)) (uuid : string) (store : gmap loc Bundle) :
  truthy files = false -> truthy folders = true -> truthy bundles = false ->
  Forall (listable fs) (list_of folders) ->
  Forall (loadable fs) (List.flat_map (candidates fs) (list_of folders)) ->
  fst (generate_index isoparse isoformat fs name description root_url files folders
         bundles uuid (start store)) =
  {| w_store := store;
     w_trace := List.map EListdir (list_of folders) ++
                List.map EOpen (List.flat_map (candidates fs) (list_of folders)) |}.
Proof.
  intros Hfi Hfo Hb Hls Hld.
  rewrite generate_index_unfold,
    (build_table_folder_mode _ _ _ _ _ _ Hfi Hfo Hb).
  unfold bind. rewrite (scan_folders_ok _ _ Hls), (parse_files_ok _ _ _ Hld).
  reflexivity.
Qed.

(** X9.  A folder that cannot be listed ends the call with the error of the
    listing before any file is opened, also the files of the folders listed
    before it, and before any bundle is looked at. *)
Theorem generate_index_stops_at_unlistable_folder (fs : FileSystem)
    (name description root_url : string) (files : option (list string))
    (done : list string) (bad : string) (rest : list string)
    (bundles : option (list loc)) (uuid : string) (store : gmap loc Bundle)
    (e : py_error) :
  truthy files = false ->
  Forall (listable fs) done -> fs_listdir fs bad = Raise e ->
  generate_index isoparse isoformat fs name description root_url files
    (Some (done ++ bad :: rest)) bundles uuid (start store) =
  ({| w_store := store; w_trace := List.map EListdir (done ++ [bad]) |}, Raise e).
Proof.
  intros Hfi Hd He. rewrite generate_index_unfold.
  unfold build_table. rewrite Hfi.
  assert (Ht : truthy (Some (done ++ bad :: rest)) = true)
    by (destruct done; reflexivity).
  rewrite Ht. unfold bind. cbn [andb ret list_of].
  rewrite (scan_folders_fail _ _ _ _ _ Hd He). reflexivity.
Qed.

(** X10.  What the scan keeps: a path is a candidate exactly when it is
    [os.path.join] of one of the folders and of one of its entries of which
    some prefix is matched in full by the pattern. *)
Theorem scan_folders_candidates (fs : FileSystem) (folders : list string)
    (w w' : world) (found : list string) (c : string) :
  scan_folders fs folders w = (w', Ok found) ->
  (In c found <->
   exists folder names entry,
     In folder folders /\ fs_listdir fs folder = Ok names /\ In entry names /\
     (exists p q, entry = String.append p q /\ matches version_regex p) /\
     c = os_path_join folder entry).
Proof.
  intros H. pose proof (scan_folders_inv _ _ _ _ _ H) as Hl.
  rewrite (scan_folders_ok _ _ Hl) in H. injection H as _ <-.
  rewrite in_flat_map. split.
  - intros (folder & Hf & Hc). unfold candidates in Hc.
    destruct (fs_listdir fs folder) as [names | e] eqn:En; [| contradiction].
    apply in_map_iff in Hc as (entry & <- & He).
    apply filter_In in He as [He Hm]. apply re_match_prefix in Hm.
    exists folder, names, entry. auto.
  - intros (folder & names & entry & Hf & Hn & He & Hm & ->).
    exists folder. split; [exact Hf |]. unfold candidates. rewrite Hn.
    apply in_map_iff. exists entry. split; [reflexivity |].
    apply filter_In. split; [exact He | apply re_match_prefix, Hm].
Qed.

(** ** Where the urls of the versions come from *)

Lemma all_versions_app (t1 t2 : table) :
  all_versions (t1 ++ t2) = all_versions t1 ++ all_versions t2.
Proof.
  unfold all_versions, table_values. rewrite !List.map_app, concat_app. reflexivity.
Qed.

Lemma all_versions_alter_in (f : Collection -> Collection) (k : string) (t : table)
    (v : Version) :
  In v (all_versions (table_alter f k t)) ->
  In v (all_versions t) \/ exists c, In c (table_values t) /\ In v (c_versions (f c)).
Proof.
  induction t as [|[k0 c0] t IH]; simpl; intros H; [contradiction |].
  destruct (String.eqb k k0).
  - change (In v (c_versions (f c0) ++ all_versions t)) in H.
    apply in_app_or in H as [H | H].
    + right. exists c0. split; [left; reflexivity | exact H].
    + left. change (In v (c_versions c0 ++ all_versions t)).
      apply in_or_app. right. exact H.
  - change (In v (c_versions c0 ++ all_versions (table_alter f k t))) in H.
    change (In v (c_versions c0 ++ all_versions t) \/
            exists c, In c (c0 :: table_values t) /\ In v (c_versions (f c))).
    apply in_app_or in H as [H | H].
    + left. apply in_or_app. left. exact H.
    + destruct (IH H) as [H' | (c & Hc & Hv)].
      * left. apply in_or_app. right. exact H'.
      * right. exists c. split; [right; exact Hc | exact Hv].
Qed.

Lemma all_versions_record (t : table) (c : Collection) (v : Version) :
  In c (table_values t) -> In v (c_versions c) -> In v (all_versions t).
Proof.
  intros Hc Hv. unfold all_versions. apply in_concat.
  exists (c_versions c). split; [apply List.in_map, Hc | exact Hv].
Qed.

Lemma add_version_versions_in (url : string) (t : table) (x : StixObject)
    (v : Version) :
  In v (all_versions (add_version isoparse url t x)) ->
  In v (all_versions t) \/ v = new_version x url.
Proof.
  unfold add_version. intros H.
  apply all_versions_alter_in in H as [H | (c & Hc & Hv)].
  - destruct (table_mem (o_id x) t); [left; exact H |].
    rewrite all_versions_app in H. apply in_app_or in H as [H | H];
      [left; exact H | contradiction].
  - simpl in Hv. apply (Permutation_in _ (sort_desc_perm isoparse _)) in Hv.
    apply in_app_or in Hv as [Hv | [<- | []]]; [| right; reflexivity].
    left. destruct (table_mem (o_id x) t).
    + eapply all_versions_record; eassumption.
    + unfold table_values in Hc. rewrite List.map_app in Hc.
      apply in_app_or in Hc as [Hc | [<- | []]]; [| contradiction].
      eapply all_versions_record; eassumption.
Qed.

Lemma extract_collection_versions_in (objects : list StixObject) (t : table)
    (url : string) (v : Version) :
  In v (all_versions (extract_collection isoparse objects t url)) ->
  In v (all_versions t) \/ v_url v = url.
Proof.
  revert t. induction objects as [|x objects IH]; intros t H; [left; exact H |].
  rewrite extract_collection_cons in H. apply IH in H as [H | H]; [| right; exact H].
  destruct (is_collection x); [| left; exact H].
  apply add_version_versions_in in H as [H | ->]; [left; exact H | right; reflexivity].
Qed.

Lemma table_of_files_versions_in (fs : FileSystem) (root_url : string)
    (files : list string) (v : Version) :
  forall t,
    In v (all_versions (table_of_files isoparse fs root_url files t)) ->
    In v (all_versions t) \/
    exists f, In f files /\ v_url v = collection_url root_url f.
Proof.
  induction files as [|f files IH]; intros t H; [left; exact H |].
  simpl in H. apply IH in H as [H | (f' & Hf & Hv)].
  - apply extract_collection_versions_in in H as [H | H]; [left; exact H |].
    right. exists f. split; [left; reflexivity | exact H].
  - right. exists f'. split; [right; exact Hf | exact Hv].
Qed.

Lemma transfer_bundles_versions_in (cleaned : list loc) (v : Version) :
  forall t w w' t',
    transfer_bundles isoparse cleaned t w = (w', Ok t') ->
    In v (all_versions t') -> In v (all_versions t) \/ v_url v = "Imported".
Proof.
  induction cleaned as [|b cleaned IH]; simpl; intros t w w' t' H Hv.
  - injection H as _ <-. left. exact Hv.
  - apply bind_ok in H as (w1 & found & _ & H).
    destruct found as [input_bundle |]; [| eapply IH; eassumption].
    destruct (iterate_objects (b_objects input_bundle)) as [objects left].
    apply bind_ok in H as (w2 & [] & _ & H).
    destruct (IH _ _ _ _ H Hv) as [Hin | Hu]; [| right; exact Hu].
    apply extract_collection_versions_in in Hin. exact Hin.
Qed.

Lemma transfer_bundles_trace (cleaned : list loc) :
  forall t w, w_trace (fst (transfer_bundles isoparse cleaned t w)) = w_trace w.
Proof.
  induction cleaned as [|b cleaned IH]; simpl; intros t w; [reflexivity |].
  unfold bind at 1, get_bundle.
  destruct (w_store w !! b) as [input_bundle |]; [| apply IH].
  destruct (iterate_objects (b_objects input_bundle)) as [objects left].
  unfold bind, set_objects. rewrite IH. reflexivity.
Qed.

(** ** What a call leaves of the caller's bundles *)

Lemma objects_at_set_objects (b j : loc) (ov : ObjectsValue) (w : world) :
  objects_at (w_store (fst (set_objects b ov w))) j =
  if decide (b = j)
  then match objects_at (w_store w) b with Some _ => Some ov | None => None end
  else objects_at (w_store w) j.
Proof.
  unfold objects_at, set_objects. simpl. rewrite lookup_alter.
  destruct (decide (b = j)); [| reflexivity].
  destruct (w_store w !! b); reflexivity.
Qed.

Lemma objects_at_emit (e : event) (j : loc) (w : world) :
  objects_at (w_store (fst (emit e w))) j = objects_at (w_store w) j.
Proof. reflexivity. Qed.

Lemma after_first_collection_none (l : list StixObject) :
  existsb is_collection l = false ->
  existsb is_collection (after_first_collection l) = false.
Proof.
  induction l as [|x l IH]; simpl; [reflexivity |].
  destruct (is_collection x); [discriminate | exact IH].
Qed.

Lemma any_collection_rejected (ov : ObjectsValue) :
  fst (any_collection ov) = false ->
  offers_collection (snd (any_collection ov)) = false.
Proof.
  destruct ov as [l | p]; simpl; [auto | apply after_first_collection_none].
Qed.

(** The world after the body of the loop of lines 38-44 ran for [b]. *)
Lemma clean_bundles_cons (b : loc) (rest : list loc) (w : world) :
  clean_bundles (b :: rest) w =
  match w_store w !! b with
  | None => clean_bundles rest w
  | Some bundle =>
      let (has, objects) := any_collection (b_objects bundle) in
      if has then
        match clean_bundles rest
                (fst (set_objects b (filter_objects objects)
                        (fst (set_objects b objects w)))) with
        | (w', Ok more) => (w', Ok (b :: more))
        | (w', Raise e) => (w', Raise e)
        end
      else
        match b_attr_id bundle with
        | None => (fst (set_objects b objects w), Raise AttributeError)
        | Some bundle_id =>
            clean_bundles rest
              (fst (emit (EPrint (bundle_message bundle_id))
                      (fst (set_objects b objects w))))
        end
  end.
Proof.
  simpl. unfold bind at 1, get_bundle.
  destruct (w_store w !! b) as [bundle |]; [| reflexivity].
  destruct (any_collection (b_objects bundle)) as [has objects].
  destruct has.
  - unfold bind, ret. simpl.
    destruct (clean_bundles rest _) as [w' [more | e]]; reflexivity.
  - destruct (b_attr_id bundle); reflexivity.
Qed.

Lemma clean_bundles_frame (bundles : list loc) (j : loc) :
  ~ In j bundles ->
  forall w, objects_at (w_store (fst (clean_bundles bundles w))) j =
            objects_at (w_store w) j.
Proof.
  induction bundles as [|b rest IH]; intros Hj w; [reflexivity |].
  assert (Hb : b <> j) by (intros ->; apply Hj; left; reflexivity).
  assert (Hr : ~ In j rest) by (intros H; apply Hj; right; exact H).
  rewrite clean_bundles_cons.
  destruct (w_store w !! b) as [bundle |]; [| apply IH, Hr].
  destruct (any_collection (b_objects bundle)) as [has objects].
  destruct has.
  - destruct (clean_bundles rest _) as [w' r] eqn:E.
    assert (Hw : objects_at (w_store w') j = objects_at (w_store w) j).
    { pose proof (IH Hr (fst (set_objects b (filter_objects objects)
                                (fst (set_objects b objects w))))) as H.
      rewrite E in H. cbn [fst] in H. rewrite H.
      rewrite !objects_at_set_objects.
      destruct (decide (b = j)); [contradiction | reflexivity]. }
    destruct r; exact Hw.
  - destruct (b_attr_id bundle).
    + rewrite (IH Hr), objects_at_emit, objects_at_set_objects.
      destruct (decide (b = j)); [contradiction | reflexivity].
    + cbn [fst]. rewrite objects_at_set_objects.
      destruct (decide (b = j)); [contradiction | reflexivity].
Qed.

Lemma objects_at_lookup (store : gmap loc Bundle) (b : loc) (bundle : Bundle) :
  store !! b = Some bundle -> objects_at store b = Some (b_objects bundle).
Proof. unfold objects_at. intros ->. reflexivity. Qed.

Lemma any_collection_filter (p : list StixObject) :
  exists p', snd (any_collection (ObjFilter p)) = ObjFilter p'.
Proof. eexists. reflexivity. Qed.

Lemma filter_objects_filter (ov : ObjectsValue) :
  exists p, filter_objects ov = ObjFilter p.
Proof. destruct ov; eexists; reflexivity. Qed.

(** An iterator stays an iterator. *)
Lemma clean_bundles_filter_stays (bundles : list loc) (j : loc) :
  forall w,
    (exists p, objects_at (w_store w) j = Some (ObjFilter p)) ->
    exists p', objects_at (w_store (fst (clean_bundles bundles w))) j =
               Some (ObjFilter p').
Proof.
  induction bundles as [|b rest IH]; intros w Hj; [exact Hj |].
  rewrite clean_bundles_cons.
  destruct (w_store w !! b) as [bundle |] eqn:Eb; [| apply IH, Hj].
  destruct (any_collection (b_objects bundle)) as [has objects] eqn:Ea.
  assert (H1 : exists p, objects_at (w_store (fst (set_objects b objects w))) j =
                         Some (ObjFilter p)).
  { rewrite objects_at_set_objects. destruct (decide (b = j)) as [-> | Hne]; [| exact Hj].
    rewrite (objects_at_lookup _ _ _ Eb) in *. destruct Hj as [p Hp].
    injection Hp as Hp. rewrite Hp in Ea.
    destruct (any_collection_filter p) as [p' Hp']. rewrite Ea in Hp'. simpl in Hp'.
    exists p'. rewrite Hp'. reflexivity. }
  destruct has.
  - assert (H2 : exists p,
               objects_at (w_store (fst (set_objects b (filter_objects objects)
                                           (fst (set_objects b objects w))))) j =
               Some (ObjFilter p)).
    { rewrite objects_at_set_objects. destruct (decide (b = j)) as [-> | Hne]; [| exact H1].
      destruct H1 as [p ->]. destruct (filter_objects_filter objects) as [p' ->].
      exists p'. reflexivity. }
    apply IH in H2. destruct (clean_bundles rest _) as [w' [more | e]]; exact H2.
  - destruct (b_attr_id bundle); [| exact H1].
    apply IH. rewrite objects_at_emit. exact H1.
Qed.

(** After the loop: the bundles kept hold an iterator, the others offer no
    collection object. *)
Lemma clean_bundles_result (bundles : list loc) :
  forall w w' cleaned,
    clean_bundles bundles w = (w', Ok cleaned) ->
    (forall j, In j cleaned ->
       exists p, objects_at (w_store w') j = Some (ObjFilter p)) /\
    (forall j ov, In j bundles -> objects_at (w_store w') j = Some ov ->
       In j cleaned \/ offers_collection ov = false).
Proof.
  induction bundles as [|b rest IH]; intros w w' cleaned H.
  - injection H as <- <-. split; [intros j [] | intros j ov []].
  - rewrite clean_bundles_cons in H.
    destruct (w_store w !! b) as [bundle |] eqn:Eb.
    + destruct (any_collection (b_objects bundle)) as [has objects] eqn:Ea.
      destruct has.
      * destruct (clean_bundles rest _) as [w1 [more | e]] eqn:Er; [| discriminate].
        injection H as <- <-. destruct (IH _ _ _ Er) as [IH1 IH2]. split.
        -- intros j [<- | Hj]; [| apply IH1, Hj].
           pose proof (clean_bundles_filter_stays rest b
                         (fst (set_objects b (filter_objects objects)
                                 (fst (set_objects b objects w))))) as Hs.
           rewrite Er in Hs. apply Hs.
           rewrite !objects_at_set_objects.
           destruct (decide (b = b)); [| contradiction].
           rewrite (objects_at_lookup _ _ _ Eb).
           destruct (filter_objects_filter objects) as [p ->]. exists p. reflexivity.
        -- intros j ov [<- | Hj] Hov; [left; left; reflexivity |].
           destruct (IH2 j ov Hj Hov) as [Hin | Ho]; [left; right; exact Hin | right; exact Ho].
      * destruct (b_attr_id bundle) as [bundle_id |]; [| discriminate].
        destruct (IH _ _ _ H) as [IH1 IH2]. split; [exact IH1 |].
        intros j ov [<- | Hj] Hov; [| apply (IH2 j ov Hj Hov)].
        destruct (in_dec Nat.eq_dec b rest) as [Hin | Hnin];
          [apply (IH2 b ov Hin Hov) |].
        right. pose proof (clean_bundles_frame rest b Hnin
                             (fst (emit (EPrint (bundle_message bundle_id))
                                     (fst (set_objects b objects w))))) as Hf.
        rewrite H in Hf. cbn [fst] in Hf.
        rewrite Hov, objects_at_emit, objects_at_set_objects in Hf.
        destruct (decide (b = b)); [| contradiction].
        rewrite (objects_at_lookup _ _ _ Eb) in Hf. injection Hf as ->.
        pose proof (any_collection_rejected (b_objects bundle)) as Hr.
        rewrite Ea in Hr. apply Hr. reflexivity.
    + destruct (IH _ _ _ H) as [IH1 IH2]. split; [exact IH1 |].
      intros j ov [<- | Hj] Hov; [| apply (IH2 j ov Hj Hov)].
      destruct (in_dec Nat.eq_dec b rest) as [Hin | Hnin];
        [apply (IH2 b ov Hin Hov) |].
      pose proof (clean_bundles_frame rest b Hnin w) as Hf.
      rewrite H in Hf. cbn [fst] in Hf. rewrite Hov in Hf.
      unfold objects_at in Hf. rewrite Eb in Hf. discriminate.
Qed.

Lemma transfer_bundles_cons (b : loc) (rest : list loc) (t : table) (w : world) :
  transfer_bundles isoparse (b :: rest) t w =
  match w_store w !! b with
  | None => transfer_bundles isoparse rest t w
  | Some input_bundle =>
      transfer_bundles isoparse rest
        (extract_collection isoparse (fst (iterate_objects (b_objects input_bundle)))
           t "Imported")
        (fst (set_objects b (snd (iterate_objects (b_objects input_bundle))) w))
  end.
Proof.
  simpl. unfold bind at 1, get_bundle.
  destruct (w_store w !! b) as [input_bundle |]; [| reflexivity].
  destruct (iterate_objects (b_objects input_bundle)) as [objects left].
  reflexivity.
Qed.

Lemma transfer_bundles_frame (cleaned : list loc) (j : loc) :
  ~ In j cleaned ->
  forall t w, objects_at (w_store (fst (transfer_bundles isoparse cleaned t w))) j =
              objects_at (w_store w) j.
Proof.
  induction cleaned as [|b rest IH]; intros Hj t w; [reflexivity |].
  assert (Hb : b <> j) by (intros ->; apply Hj; left; reflexivity).
  assert (Hr : ~ In j rest) by (intros H; apply Hj; right; exact H).
  rewrite transfer_bundles_cons.
  destruct (w_store w !! b) as [input_bundle |]; [| apply IH, Hr].
  rewrite (IH Hr), objects_at_set_objects.
  destruct (decide (b = j)); [contradiction | reflexivity].
Qed.

(** The loop of lines 59-61 leaves every iterator it reads exhausted. *)
Lemma transfer_bundles_exhausts (cleaned : list loc) (j : loc) :
  forall t w,
    In j cleaned ->
    (exists p, objects_at (w_store w) j = Some (ObjFilter p)) ->
    objects_at (w_store (fst (transfer_bundles isoparse cleaned t w))) j =
    Some (ObjFilter []).
Proof.
  induction cleaned as [|b rest IH]; intros t w Hj Hf; [contradiction |].
  rewrite transfer_bundles_cons.
  destruct (w_store w !! b) as [input_bundle |] eqn:Eb.
  - destruct (decide (b = j)) as [-> | Hne].
    + assert (Hnow : objects_at
                       (w_store (fst (set_objects j
                                        (snd (iterate_objects (b_objects input_bundle)))
                                        w))) j = Some (ObjFilter [])).
      { rewrite objects_at_set_objects. destruct (decide (j = j)); [| contradiction].
        rewrite (objects_at_lookup _ _ _ Eb) in *. destruct Hf as [p Hp].
        injection Hp as ->. reflexivity. }
      destruct (in_dec Nat.eq_dec j rest) as [Hin | Hnin].
      * apply IH; [exact Hin | exists []; exact Hnow].
      * rewrite (transfer_bundles_frame rest j Hnin). exact Hnow.
    + destruct Hj as [-> | Hj]; [contradiction |].
      apply IH; [exact Hj |]. rewrite objects_at_set_objects.
      destruct (decide (b = j)); [contradiction | exact Hf].
  - destruct Hj as [-> | Hj]; [| apply IH; assumption].
    destruct Hf as [p Hp]. unfold objects_at in Hp. rewrite Eb in Hp. discriminate.
Qed.

(** X12.  A call that returns an index has used up the bundles it was
    given: afterwards none of them offers a collection object any more (the
    accepted ones hold an exhausted iterator), so that a second call with
    the same bundle objects takes nothing from them. *)
Theorem generate_index_consumes_bundles (fs : FileSystem)
    (name description root_url : string) (files folders : option (list string))
    (bundles : option (list loc)) (uuid : string) (store : gmap loc Bundle)
    (w' : world) (idx : Index) :
  generate_index isoparse isoformat fs name description root_url files folders
    bundles uuid (start store) = (w', Ok idx) ->
  forall b ov,
    In b (list_of bundles) -> objects_at (w_store w') b = Some ov ->
    offers_collection ov = false.
Proof.
  intros H b ov Hb Hov. rewrite generate_index_unfold in H.
  destruct (build_table isoparse fs root_url files folders bundles (start store))
    as [w1 [t | e]] eqn:Ebt; [| discriminate].
  assert (Hw : w1 = w').
  { destruct (assemble isoparse (table_values t) None None); [| discriminate].
    injection H as <- _. reflexivity. }
  subst w1. clear H. unfold build_table in Ebt.
  apply bind_ok in Ebt as (wa & [] & _ & Ebt).
  apply bind_ok in Ebt as (wb & files1 & _ & Ebt).
  apply bind_ok in Ebt as (wc & cleaned & Hc & Ebt).
  apply bind_ok in Ebt as (wd & t1 & Hp & Ebt).
  assert (Hbt : truthy bundles = true).
  { destruct bundles as [[|b0 bs] |]; try contradiction. reflexivity. }
  rewrite Hbt in Hc. destruct (clean_bundles_result _ _ _ _ Hc) as [Hk Hrej].
  assert (Hs : w_store wd = w_store wc).
  { destruct (truthy files1).
    - pose proof (store_preserving_parse_files isoparse fs root_url (list_of files1)
                    [] wc) as Hsp.
      rewrite Hp in Hsp. exact Hsp.
    - injection Hp as <- _. reflexivity. }
  destruct (in_dec Nat.eq_dec b cleaned) as [Hin | Hnin].
  - destruct cleaned as [|c0 cleaned]; [contradiction |].
    pose proof (transfer_bundles_exhausts (c0 :: cleaned) b t1 wd Hin) as He.
    rewrite Ebt, Hs in He. cbn [fst] in He.
    rewrite (He (Hk b Hin)) in Hov. injection Hov as <-. reflexivity.
  - assert (Hsame : objects_at (w_store w') b = objects_at (w_store wc) b).
    { destruct cleaned as [|c0 cleaned].
      - injection Ebt as <- _. rewrite Hs. reflexivity.
      - pose proof (transfer_bundles_frame (c0 :: cleaned) b Hnin t1 wd) as Hf.
        rewrite Ebt, Hs in Hf. exact Hf. }
    rewrite Hsame in Hov.
    destruct (Hrej b ov Hb Hov) as [Hin | Ho]; [contradiction | exact Ho].
Qed.

(** ** The origin of a version *)

Lemma table_alter_forall_at (P : string * Collection -> Prop)
    (f : Collection -> Collection) (k : string) (t : table) :
  (forall c, P (k, c) -> P (k, f c)) ->
  Forall P t -> Forall P (table_alter f k t).
Proof.
  intros Hf. induction t as [|[k0 c] t IH]; simpl; intros Ht; [constructor |].
  apply Forall_cons_iff in Ht as [H0 Ht].
  destruct (String.eqb_spec k k0) as [<- | Hne]; constructor; auto.
Qed.

Lemma add_version_sourced (Q : string -> Version -> Prop) (url : string)
    (t : table) (x : StixObject) :
  sourced Q t -> Q (o_id x) (new_version x url) ->
  sourced Q (add_version isoparse url t x).
Proof.
  intros Ht Hx. unfold sourced, add_version.
  apply table_alter_forall_at.
  - intros c [Hid Hv]. simpl in *. split; [exact Hid |].
    intros v Hin. apply (Permutation_in _ (sort_desc_perm isoparse _)) in Hin.
    apply in_app_or in Hin as [Hin | [<- | []]]; [apply Hv, Hin | exact Hx].
  - destruct (table_mem (o_id x) t); [exact Ht |].
    apply Forall_app. split; [exact Ht |].
    constructor; [| constructor]. split; [reflexivity | intros v []].
Qed.

Lemma extract_collection_sourced (Q : string -> Version -> Prop)
    (objects : list StixObject) (url : string) :
  forall t,
    sourced Q t ->
    (forall x, In x objects -> is_collection x = true ->
               Q (o_id x) (new_version x url)) ->
    sourced Q (extract_collection isoparse objects t url).
Proof.
  induction objects as [|x objects IH]; intros t Ht Hq; [exact Ht |].
  rewrite extract_collection_cons. apply IH.
  - destruct (is_collection x) eqn:Ec; [| exact Ht].
    apply add_version_sourced; [exact Ht |]. apply Hq; [left; reflexivity | exact Ec].
  - intros y Hy. apply Hq. right. exact Hy.
Qed.

Lemma table_of_files_sourced (Q : string -> Version -> Prop) (fs : FileSystem)
    (root_url : string) (files : list string) :
  forall t,
    sourced Q t ->
    (forall file x, In file files -> In x (loaded fs file) -> is_collection x = true ->
                    Q (o_id x) (new_version x (collection_url root_url file))) ->
    sourced Q (table_of_files isoparse fs root_url files t).
Proof.
  induction files as [|f files IH]; intros t Ht Hq; [exact Ht |].
  simpl. apply IH.
  - apply extract_collection_sourced; [exact Ht |].
    intros x Hx. apply Hq; [left; reflexivity | exact Hx].
  - intros file x Hf. apply Hq. right. exact Hf.
Qed.

Lemma contents_at_set_objects (b j : loc) (ov : ObjectsValue) (w : world) (x : StixObject) :
  (forall y, In y (contents ov) -> In y (contents_at (w_store w) b)) ->
  In x (contents_at (w_store (fst (set_objects b ov w))) j) ->
  In x (contents_at (w_store w) j).
Proof.
  intros Hov. unfold contents_at at 1. rewrite objects_at_set_objects.
  destruct (decide (b = j)) as [<- | Hne]; [| intros H; exact H].
  destruct (objects_at (w_store w) b); [apply Hov | contradiction].
Qed.

Lemma contents_at_lookup (store : gmap loc Bundle) (b : loc) (bundle : Bundle) :
  store !! b = Some bundle -> contents_at store b = contents (b_objects bundle).
Proof.
  intros H. unfold contents_at. rewrite (objects_at_lookup _ _ _ H). reflexivity.
Qed.

Lemma after_first_collection_incl (l : list StixObject) (x : StixObject) :
  In x (after_first_collection l) -> In x l.
Proof.
  induction l as [|y l IH]; simpl; [auto |].
  destruct (is_collection y); intros H; [right; exact H | right; apply IH, H].
Qed.

Lemma any_collection_incl (ov : ObjectsValue) (x : StixObject) :
  In x (contents (snd (any_collection ov))) -> In x (contents ov).
Proof.
  destruct ov as [l | p]; simpl; [auto | apply after_first_collection_incl].
Qed.

Lemma filter_objects_contents (ov : ObjectsValue) :
  contents (filter_objects ov) = contents ov.
Proof. destruct ov; reflexivity. Qed.

Lemma iterate_objects_incl (ov : ObjectsValue) (x : StixObject) :
  (In x (fst (iterate_objects ov)) -> In x (contents ov)) /\
  (In x (contents (snd (iterate_objects ov))) -> In x (contents ov)).
Proof.
  destruct ov as [l | p]; simpl; split; auto; [| contradiction].
  intros H. apply filter_In in H as [H _]. exact H.
Qed.

(** The loop of lines 38-44 gives no bundle an object it did not have. *)
Lemma clean_bundles_contents (bundles : list loc) (j : loc) (x : StixObject) :
  forall w,
    In x (contents_at (w_store (fst (clean_bundles bundles w))) j) ->
    In x (contents_at (w_store w) j).
Proof.
  induction bundles as [|b rest IH]; intros w H; [exact H |].
  rewrite clean_bundles_cons in H.
  destruct (w_store w !! b) as [bundle |] eqn:Eb; [| apply IH, H].
  destruct (any_collection (b_objects bundle)) as [has objects] eqn:Ea.
  assert (H1 : forall y, In y (contents objects) -> In y (contents_at (w_store w) b)).
  { intros y Hy. rewrite (contents_at_lookup _ _ _ Eb).
    apply any_collection_incl. rewrite Ea. exact Hy. }
  assert (Hstep1 : forall y i,
            In y (contents_at (w_store (fst (set_objects b objects w))) i) ->
            In y (contents_at (w_store w) i)).
  { intros y i. apply contents_at_set_objects. exact H1. }
  destruct has.
  - assert (Hstep2 : In x (contents_at
                              (w_store (fst (set_objects b (filter_objects objects)
                                               (fst (set_objects b objects w))))) j)).
    { destruct (clean_bundles rest _) as [w' [more | e]] eqn:Er;
        cbn [fst] in H; apply IH; rewrite Er; exact H. }
    apply Hstep1. eapply contents_at_set_objects; [| exact Hstep2].
    intros y Hy. rewrite filter_objects_contents in Hy.
    unfold contents_at. rewrite objects_at_set_objects.
    destruct (decide (b = b)); [| contradiction].
    rewrite (objects_at_lookup _ _ _ Eb). exact Hy.
  - destruct (b_attr_id bundle).
    + apply Hstep1. apply IH in H. exact H.
    + cbn [fst] in H. apply Hstep1, H.
Qed.

Lemma clean_bundles_subset (bundles : list loc) :
  forall w w' cleaned,
    clean_bundles bundles w = (w', Ok cleaned) ->
    forall j, In j cleaned -> In j bundles.
Proof.
  induction bundles as [|b rest IH]; intros w w' cleaned H j Hj.
  - injection H as _ <-. contradiction.
  - rewrite clean_bundles_cons in H.
    destruct (w_store w !! b) as [bundle |]; [| right; eapply IH; eassumption].
    destruct (any_collection (b_objects bundle)) as [has objects].
    destruct has.
    + destruct (clean_bundles rest _) as [w1 [more | e]] eqn:Er; [| discriminate].
      injection H as _ <-. destruct Hj as [<- | Hj]; [left; reflexivity |].
      right. eapply IH; eassumption.
    + destruct (b_attr_id bundle); [| discriminate].
      right. eapply IH; eassumption.
Qed.

Lemma transfer_bundles_sourced (Q : string -> Version -> Prop) (cleaned : list loc) :
  forall t w w' t',
    sourced Q t ->
    (forall b x, In b cleaned -> In x (contents_at (w_store w) b) ->
                 is_collection x = true -> Q (o_id x) (new_version x "Imported")) ->
    transfer_bundles isoparse cleaned t w = (w', Ok t') ->
    sourced Q t'.
Proof.
  induction cleaned as [|b rest IH]; intros t w w' t' Ht Hq H.
  - injection H as _ <-. exact Ht.
  - rewrite transfer_bundles_cons in H.
    destruct (w_store w !! b) as [input_bundle |] eqn:Eb.
    + eapply IH; [| | exact H].
      * apply extract_collection_sourced; [exact Ht |].
        intros x Hx. apply (Hq b); [left; reflexivity |].
        rewrite (contents_at_lookup _ _ _ Eb).
        apply (proj1 (iterate_objects_incl _ x)), Hx.
      * intros j x Hj Hx. apply (Hq j); [right; exact Hj |].
        eapply contents_at_set_objects; [| exact Hx].
        intros y Hy. rewrite (contents_at_lookup _ _ _ Eb).
        apply (proj2 (iterate_objects_incl _ y)), Hy.
    + eapply IH; [exact Ht | | exact H].
      intros j x Hj. apply Hq. right. exact Hj.
Qed.

(** X11.  Every version of the index has the url of its origin: it was made
    from a collection object of the identity of its collection, and has the
    version and the modified of that object; the object stands in a file
    that the call opened, and the url is [root_url] joined with the path of
    that very file, or it stood in one of the bundles passed, and the url is
    the word Imported. *)
Theorem generate_index_version_origin (fs : FileSystem)
    (name description root_url : string) (files folders : option (list string))
    (bundles : option (list loc)) (uuid : string) (store : gmap loc Bundle)
    (w' : world) (idx : Index) :
  generate_index isoparse isoformat fs name description root_url files folders
    bundles uuid (start store) = (w', Ok idx) ->
  forall out iv,
    In out (i_collections idx) -> In iv (ic_versions out) ->
    exists v,
      iv = strip_version v /\
      ((exists file, In (EOpen file) (w_trace w') /\
                     from_file fs root_url (ic_id out) file v) \/
       (exists b, In b (list_of bundles) /\ from_bundle store (ic_id out) b v)).
Proof.
  intros H out iv Hout Hiv. rewrite generate_index_unfold in H.
  destruct (build_table isoparse fs root_url files folders bundles (start store))
    as [w1 [t | e]] eqn:Eb; [| discriminate].
  destruct (assemble isoparse (table_values t) None None)
    as [[[outs ic] im] | e] eqn:Ea; [| discriminate].
  unfold finish in H. destruct ic as [ic |]; [| discriminate].
  destruct im as [im |]; [| discriminate].
  injection H as -> <-. simpl in Hout.
  apply assemble_ok in Ea as (Hf & _ & _).
  set (Q := fun k v =>
              (exists file, In (EOpen file) (w_trace w') /\
                            from_file fs root_url k file v) \/
              (exists b, In b (list_of bundles) /\ from_bundle store k b v)).
  assert (Hs : sourced Q t).
  { unfold build_table in Eb.
    apply bind_ok in Eb as (wa & [] & Ha & Eb).
    apply bind_ok in Eb as (wb & files1 & Hb & Eb).
    apply bind_ok in Eb as (wc & cleaned & Hc & Eb).
    apply bind_ok in Eb as (wd & t1 & Hp & Eb).
    assert (Hsa : w_store wa = store).
    { destruct (truthy files && truthy folders)%bool; injection Ha as <-; reflexivity. }
    assert (Hsb : w_store wb = store).
    { destruct (truthy folders).
      - apply bind_ok in Hb as (wx & found & Hx & Hb).
        injection Hb as <- _.
        pose proof (store_preserving_scan_folders fs (list_of folders) wa) as Hsp.
        rewrite Hx in Hsp. simpl in Hsp. congruence.
      - injection Hb as <- _. exact Hsa. }
    assert (Hsd : w_store wd = w_store wc).
    { destruct (truthy files1).
      - pose proof (store_preserving_parse_files isoparse fs root_url (list_of files1)
                      [] wc) as Hsp.
        rewrite Hp in Hsp. exact Hsp.
      - injection Hp as <- _. reflexivity. }
    assert (Htr : w_trace w' = w_trace wd).
    { destruct cleaned as [|b cleaned]; [injection Eb as <- _; reflexivity |].
      pose proof (transfer_bundles_trace (b :: cleaned) t1 wd) as Htr.
      rewrite Eb in Htr. exact Htr. }
    assert (Ht1 : sourced Q t1).
    { destruct (truthy files1).
      - pose proof (parse_files_inv_loadable _ _ _ _ _ _ _ Hp) as Hl.
        rewrite (parse_files_ok _ _ _ Hl) in Hp. injection Hp as Hwd <-.
        apply table_of_files_sourced; [constructor |].
        intros file x Hfile Hx Hcol. left. exists file. split.
        + rewrite Htr, <- Hwd. simpl. apply in_or_app. right.
          apply List.in_map, Hfile.
        + rewrite List.Forall_forall in Hl. destruct (Hl file Hfile) as [objects Ho].
          unfold loaded in Hx. rewrite Ho in Hx.
          exists objects, x. repeat split; assumption.
      - injection Hp as _ <-. constructor. }
    destruct cleaned as [|b cleaned]; [injection Eb as _ <-; exact Ht1 |].
    assert (Hbt : truthy bundles = true).
    { destruct (truthy bundles); [reflexivity | discriminate]. }
    rewrite Hbt in Hc.
    eapply transfer_bundles_sourced; [exact Ht1 | | exact Eb].
    intros j x Hj Hx Hcol. right. exists j. split.
    + eapply clean_bundles_subset; eassumption.
    + exists x. repeat split; try assumption.
      rewrite Hsd in Hx.
      pose proof (clean_bundles_contents (list_of bundles) j x wb) as Hcc.
      rewrite Hc in Hcc. cbn [fst] in Hcc. rewrite Hsb in Hcc. apply Hcc, Hx. }
  clear Eb. unfold sourced in Hs.
  assert (Hvals : Forall (fun c => forall v, In v (c_versions c) -> Q (c_id c) v)
                    (table_values t)).
  { unfold table_values. rewrite List.Forall_forall in *.
    intros c Hc. apply in_map_iff in Hc as ([k c'] & <- & Hkc).
    destruct (Hs _ Hkc) as [Hid Hq]. simpl in *. rewrite Hid. exact Hq. }
  clear Hs. revert Hvals.
  induction Hf as [|c o cs os (Hid & _ & Hvs & _) _ IH]; intros Hvals;
    [contradiction |].
  apply Forall_cons_iff in Hvals as [Hc Hvals].
  destruct Hout as [-> | Hout]; [| apply IH; assumption].
  rewrite Hvs in Hiv. apply in_map_iff in Hiv as (v & <- & Hv).
  exists v. split; [reflexivity |]. rewrite Hid. apply Hc, Hv.
Qed.

(** ** The pass over the table *)

(** X13.  Line 65 never fails: every record of the table that the loop of
    line 63 goes through has a last version, whatever the sources were, so
    the pass over the table does not end with IndexError. *)
Theorem generate_index_last_version_exists (fs : FileSystem) (root_url : string)
    (files folders : option (list string)) (bundles : option (list loc))
    (w w' : world) (collections : table) :
  build_table isoparse fs root_url files folders bundles w = (w', Ok collections) ->
  Forall (fun c => exists v, last_item (c_versions c) = Some v)
    (table_values collections) /\
  forall index_created index_modified,
    assemble isoparse (table_values collections) index_created index_modified
    <> Raise IndexError.
Proof.
  intros Hb. pose proof (build_table_inv _ _ _ _ _ _ _ _ _ Hb) as Hinv. split.
  - unfold table_inv in Hinv. rewrite List.Forall_forall in *.
    intros c Hc. destruct (Hinv c Hc) as [Hne _].
    destruct (last_item (c_versions c)) as [v |] eqn:El; [exists v; reflexivity |].
    apply last_item_none in El. contradiction.
  - intros ic im. destruct (assemble_total isoparse _ Hinv ic im) as [r ->].
    discriminate.
Qed.

End Pipeline.

(** * What the pattern asks of a file name *)

Section Pattern.

Lemma append_String (a : ascii) (s t : string) :
  String.append (String a s) t = String a (String.append s t).
Proof. reflexivity. Qed.

Lemma string_exists_append (P : ascii -> bool) (s t : string) :
  string_exists P (String.append s t) = (string_exists P s || string_exists P t)%bool.
Proof.
  induction s as [|a s IH]; [reflexivity |].
  rewrite append_String. simpl. rewrite IH, orb_assoc. reflexivity.
Qed.

Lemma matches_char_inv (c : char_class) (s : string) :
  matches (RChar c) s -> exists a, s = String a "" /\ class_matches c a = true.
Proof. intros H. inversion H; subst. eexists. split; [reflexivity | assumption]. Qed.

Lemma matches_seq_inv (r1 r2 : regex) (s : string) :
  matches (RSeq r1 r2) s ->
  exists s1 s2, s = String.append s1 s2 /\ matches r1 s1 /\ matches r2 s2.
Proof. intros H. inversion H; subst. eexists _, _. split; [reflexivity | split; assumption]. Qed.

(** X14.  A name that the scan keeps begins with a word character and has a
    hyphen and a digit in it; entries such as [.hidden-1.0.json],
    [index.json] or [notes-final.json] are never candidates. *)
Theorem version_regex_requirements (s : string) :
  re_match version_regex s = true ->
  (exists a s', s = String a s' /\ is_word a = true) /\
  string_exists (fun a => Ascii.eqb a "-") s = true /\
  string_exists is_digit s = true.
Proof.
  intros H. apply re_match_prefix in H as (p & q & -> & H).
  unfold version_regex, RPlus in H.
  apply matches_seq_inv in H as (p1 & p2 & -> & H1 & H2).
  apply matches_seq_inv in H1 as (u & u' & -> & Hu & _).
  apply matches_seq_inv in Hu as (ws & dash & -> & Hws & Hdash).
  apply matches_seq_inv in Hws as (w1 & w2 & -> & Hw1 & _).
  apply matches_char_inv in Hw1 as (a & -> & Ha).
  apply matches_char_inv in Hdash as (d & -> & Hd).
  apply matches_seq_inv in H2 as (n & tail & -> & Hn & _).
  apply matches_seq_inv in Hn as (n1 & n' & -> & Hn1 & _).
  apply matches_seq_inv in Hn1 as (dg & opt & -> & Hdg & _).
  apply matches_char_inv in Hdg as (g & -> & Hg).
  simpl in Ha, Hd, Hg.
  split; [| split].
  - rewrite !append_String. eexists _, _. split; [reflexivity | exact Ha].
  - rewrite !string_exists_append. simpl. rewrite Hd.
    rewrite !orb_true_r. reflexivity.
  - rewrite !string_exists_append. simpl. rewrite Hg.
    rewrite !orb_true_r. reflexivity.
Qed.

End Pattern.




(** * The command line *)

Section CommandLine.

Variable isoparse : string -> Z.
Variable isoformat : Z -> string.

Lemma quiet_app (tr1 tr2 : list event) : quiet tr1 -> quiet tr2 -> quiet (tr1 ++ tr2).
Proof. unfold quiet. intros H1 H2. apply Forall_app. split; assumption. Qed.

Lemma scan_folders_quiet (fs : FileSystem) (folders : list string) :
  forall w, quiet (w_trace w) -> quiet (w_trace (fst (scan_folders fs folders w))).
Proof.
  induction folders as [|folder folders IH]; intros w Hq; [exact Hq |].
  simpl. unfold bind at 1, emit. unfold bind at 1, lift.
  assert (Hq1 : quiet (w_trace w ++ [EListdir folder])).
  { apply quiet_app; [exact Hq |]. constructor; [discriminate | constructor]. }
  destruct (fs_listdir fs folder) as [names | e]; [| exact Hq1].
  unfold bind, ret.
  specialize (IH {| w_store := w_store w; w_trace := w_trace w ++ [EListdir folder] |} Hq1).
  destruct (scan_folders fs folders _) as [w1 [more | e]]; exact IH.
Qed.

Lemma parse_files_quiet (fs : FileSystem) (root_url : string) (files : list string) :
  forall t w,
    quiet (w_trace w) ->
    quiet (w_trace (fst (parse_files isoparse fs root_url files t w))).
Proof.
  induction files as [|f files IH]; intros t w Hq; [exact Hq |].
  simpl. unfold bind at 1, emit. unfold bind at 1, lift.
  assert (Hq1 : quiet (w_trace w ++ [EOpen f])).
  { apply quiet_app; [exact Hq |]. constructor; [discriminate | constructor]. }
  destruct (fs_load fs f) as [objects | e]; [| exact Hq1].
  apply IH. exact Hq1.
Qed.

Lemma generate_index_quiet (fs : FileSystem) (name description root_url : string)
    (files folders : option (list string)) (uuid : string) (store : gmap loc Bundle) :
  (truthy files = true /\ folders = None) \/ (files = None /\ truthy folders = true) ->
  quiet (w_trace (fst (generate_index isoparse isoformat fs name description root_url
                         files folders None uuid (start store)))).
Proof.
  intros Hp.
  assert (Hb : quiet (w_trace (fst (build_table isoparse fs root_url files folders None
                                      (start store))))).
  { destruct Hp as [[Hfi ->] | [-> Hfo]].
    - rewrite build_table_files_mode by reflexivity.
      apply parse_files_quiet. constructor.
    - rewrite build_table_folder_mode by (reflexivity || exact Hfo).
      unfold bind.
      pose proof (scan_folders_quiet fs (list_of folders) (start store)
                    ltac:(constructor)) as Hs.
      destruct (scan_folders fs (list_of folders) (start store)) as [w1 [found | e]];
        [| exact Hs].
      apply parse_files_quiet. exact Hs. }
  rewrite generate_index_unfold.
  destruct (build_table isoparse fs root_url files folders None (start store))
    as [w1 [t | e]]; exact Hb.
Qed.

(** X15.  From the command line [generate_index] never reaches one of its
    two calls of [print]: the message about files and folders cannot appear,
    since the parser lets only one of the two through, nor can the message
    about a bundle, since none is passed.  The one message [main] prints is
    the line that announces the writing, and it is printed only after
    [generate_index] has returned an index. *)
Theorem main_prints_only_writing (open_output : string -> result unit)
    (fs : FileSystem) (args : Args) (uuid : string) :
  parsed args ->
  (forall msg,
     ~ In (CInner (EPrint msg))
         (fst (main isoparse isoformat open_output fs args uuid))) /\
  (forall msg,
     In (CPrint msg) (fst (main isoparse isoformat open_output fs args uuid)) ->
     msg = String.append "writing " (a_output args) /\
     exists w index,
       generate_index isoparse isoformat fs (a_name args) (a_description args)
         (a_root_url args) (a_files args) (a_folders args) None uuid (start ∅)
       = (w, Ok index)).
Proof.
  intros Hp. unfold main.
  destruct (open_output (a_output args)) as [[] | e];
    [| split; intros msg; [intros [] | intros []]].
  pose proof (generate_index_quiet fs (a_name args) (a_description args)
                (a_root_url args) (a_files args) (a_folders args) uuid ∅ Hp) as Hq.
  destruct (generate_index isoparse isoformat fs (a_name args) (a_description args)
              (a_root_url args) (a_files args) (a_folders args) None uuid (start ∅))
    as [w r].
  cbn [fst] in Hq.
  assert (Hno : forall msg tail,
            In (CInner (EPrint msg)) (List.map CInner (w_trace w) ++ tail) ->
            In (CInner (EPrint msg)) tail).
  { intros msg tail H. apply in_app_or in H as [H | H]; [| exact H].
    apply in_map_iff in H as (e & He & Hin'). injection He as ->.
    unfold quiet in Hq. rewrite List.Forall_forall in Hq.
    exfalso. exact (Hq _ Hin' msg eq_refl). }
  assert (Hnp : forall msg tail,
            In (CPrint msg) (List.map CInner (w_trace w) ++ tail) ->
            In (CPrint msg) tail).
  { intros msg tail H. apply in_app_or in H as [H | H]; [| exact H].
    apply in_map_iff in H as (e & He & _). discriminate. }
  destruct r as [index | e]; cbn [fst]; split; intros msg.
  - intros [H | H]; [discriminate |].
    apply Hno in H as [H | [H | []]]; discriminate.
  - intros [H | H]; [discriminate |].
    apply Hnp in H as [H | [H | []]]; [| discriminate].
    injection H as <-. split; [reflexivity |]. exists w, index. reflexivity.
  - intros [H | H]; [discriminate |].
    rewrite <- (app_nil_r (List.map CInner (w_trace w))) in H.
    apply Hno in H. contradiction.
  - intros [H | H]; [discriminate |].
    rewrite <- (app_nil_r (List.map CInner (w_trace w))) in H.
    apply Hnp in H. contradiction.
Qed.

(** X16.  Pointed at folders in which no entry has a matching name, the
    command empties the output file, lists the folders and ends with
    AttributeError: nothing is written, and what the output file held
    before is gone. *)
Theorem main_without_candidates (open_output : string -> result unit)
    (fs : FileSystem) (args : Args) (uuid : string) (folders : list string) :
  a_files args = None -> a_folders args = Some folders -> folders <> [] ->
  open_output (a_output args) = Ok tt ->
  Forall (listable fs) folders ->
  List.flat_map (candidates fs) folders = [] ->
  main isoparse isoformat open_output fs args uuid =
  (CTruncate (a_output args) :: List.map (fun f => CInner (EListdir f)) folders,
   Raise AttributeError).
Proof.
  intros Hfi Hfo Hne Ho Hl Hc. unfold main. rewrite Ho, Hfi, Hfo.
  rewrite generate_index_unfold.
  rewrite build_table_folder_mode;
    [| reflexivity | destruct folders; [contradiction | reflexivity] | reflexivity].
  unfold bind. cbn [list_of]. rewrite (scan_folders_ok _ _ Hl), Hc.
  simpl. rewrite List.map_map. reflexivity.
Qed.

End CommandLine.

(** * Aggregate scores *)

Section AggregateScores.

Lemma fold_min_spec (l : list Z) :
  forall x, In (fold_left Z.min l x) (x :: l) /\
            forall y, In y (x :: l) -> (fold_left Z.min l x <= y)%Z.
Proof.
  induction l as [|a l IH]; intros x; simpl.
  - split; [left; reflexivity | intros y [<- | []]; lia].
  - destruct (IH (Z.min x a)) as [Hin Hle]. split.
    + destruct Hin as [Hm | Hin]; [| right; right; exact Hin].
      rewrite <- Hm. destruct (Z.min_spec x a) as [[_ ->] | [_ ->]]; auto.
    + pose proof (Hle _ (or_introl eq_refl)) as Hm.
      intros y [<- | [<- | Hy]]; [lia | lia | apply Hle; right; exact Hy].
Qed.

Lemma fold_max_spec (l : list Z) :
  forall x, In (fold_left Z.max l x) (x :: l) /\
            forall y, In y (x :: l) -> (y <= fold_left Z.max l x)%Z.
Proof.
  induction l as [|a l IH]; intros x; simpl.
  - split; [left; reflexivity | intros y [<- | []]; lia].
  - destruct (IH (Z.max x a)) as [Hin Hle]. split.
    + destruct Hin as [Hm | Hin]; [| right; right; exact Hin].
      rewrite <- Hm. destruct (Z.max_spec x a) as [[_ ->] | [_ ->]]; auto.
    + pose proof (Hle _ (or_introl eq_refl)) as Hm.
      intros y [<- | [<- | Hy]]; [lia | lia | apply Hle; right; exact Hy].
Qed.

Lemma aggFunction_nonempty (self : Layout) (x : Z) (data : list Z) :
  exists r, aggFunction self (x :: data) = Returns r.
Proof.
  unfold aggFunction. destruct (is_true (showAggregateScores self));
    [| eexists; reflexivity].
  destruct (aggregateFunction self); simpl; eexists; reflexivity.
Qed.

(** X17.  [compute_aggregate] never hands [aggFunction] an empty list: the
    ZeroDivisionError of the average and the ValueError of the minimum and
    the maximum, which [aggFunction] raises when called on an empty list with
    the scores shown, cannot come out of it; with the minimum, the maximum
    or the sum as aggregate function it always returns. *)
Theorem compute_aggregate_never_raises (self : Layout) (technique : Technique)
    (subtechniques : list Technique) :
  compute_aggregate self technique subtechniques <> Raises ZeroDivisionError /\
  compute_aggregate self technique subtechniques <> Raises ValueError /\
  (aggregateFunction self <> Aggregates.average ->
   exists r, compute_aggregate self technique subtechniques = Returns r) /\
  (is_true (showAggregateScores self) = true ->
   aggFunction self [] =
   match aggregateFunction self with
   | Aggregates.average => Raises ZeroDivisionError
   | Aggregates.min => Raises ValueError
   | Aggregates.max => Raises ValueError
   | Aggregates.sum => Returns (Some (NInt 0))
   end).
Proof.
  assert (Hr : exists r, compute_aggregate self technique subtechniques = Returns r).
  { unfold compute_aggregate.
    destruct (is_true (showAggregateScores self)); [| eexists; reflexivity].
    destruct (counted_scores self technique subtechniques) as [|x data];
      [eexists; reflexivity |].
    destruct (forallb _ (x :: data)); [eexists; reflexivity |].
    apply aggFunction_nonempty. }
  destruct Hr as [r Hr]. rewrite Hr.
  split; [discriminate |]. split; [discriminate |]. split.
  - intros _. exists r. reflexivity.
  - intros Hs. unfold aggFunction. rewrite Hs.
    destruct (aggregateFunction self); reflexivity.
Qed.

(** X18.  [compute_aggregate] returns [None] exactly when the aggregate
    scores are not shown or every counted score is zero (in particular when
    no score is counted): a technique all of whose scores are 0 has no
    aggregate, like one without scores. *)
Theorem compute_aggregate_none (self : Layout) (technique : Technique)
    (subtechniques : list Technique) :
  compute_aggregate self technique subtechniques = Returns None <->
  is_true (showAggregateScores self) = false \/
  forallb (fun x => (x =? 0)%Z) (counted_scores self technique subtechniques) = true.
Proof.
  unfold compute_aggregate.
  destruct (is_true (showAggregateScores self)) eqn:Es; [| split; auto].
  destruct (forallb _ _) eqn:Ef; [split; auto |].
  split; [| intros [H | H]; discriminate].
  intros H. exfalso.
  destruct (counted_scores self technique subtechniques) as [|x data];
    [discriminate |].
  unfold aggFunction in H. rewrite Es in H.
  destruct (aggregateFunction self); simpl in H; discriminate.
Qed.

(** X19.  The value of the aggregate: the minimum (maximum) is one of the
    counted scores and no counted score is below (above) it; the sum is the
    sum of the counted scores; the average is their sum over their number,
    which is not zero. *)
Theorem compute_aggregate_value (self : Layout) (technique : Technique)
    (subtechniques : list Technique) (v : number) :
  compute_aggregate self technique subtechniques = Returns (Some v) ->
  let scores := counted_scores self technique subtechniques in
  match aggregateFunction self with
  | Aggregates.min =>
      exists m, v = NInt m /\ In m scores /\ forall s, In s scores -> (m <= s)%Z
  | Aggregates.max =>
      exists m, v = NInt m /\ In m scores /\ forall s, In s scores -> (s <= m)%Z
  | Aggregates.sum => v = NInt (py_sum scores)
  | Aggregates.average =>
      v = NQuot (py_sum scores) (Z.of_nat (length scores)) /\ (0 < length scores)%nat
  end.
Proof.
  intros H. cbv zeta. unfold compute_aggregate in H.
  destruct (is_true (showAggregateScores self)) eqn:Es; [| discriminate].
  destruct (forallb _ _); [discriminate |].
  unfold aggFunction in H. rewrite Es in H.
  destruct (counted_scores self technique subtechniques) as [|x data].
  - destruct (aggregateFunction self); simpl in H; try discriminate.
    injection H as <-. reflexivity.
  - destruct (aggregateFunction self); simpl in H; injection H as <-.
    + split; [reflexivity | simpl; lia].
    + destruct (fold_min_spec data x) as [Hin Hle]. eexists. repeat split; assumption.
    + destruct (fold_max_spec data x) as [Hin Hle]. eexists. repeat split; assumption.
    + reflexivity.
Qed.

Lemma counted_scores_unscored_off (self : Layout) (technique : Technique)
    (subtechniques : list Technique) :
  is_true (countUnscored self) = false ->
  counted_scores self technique subtechniques =
  counted_scores self technique
    (List.filter (fun x => match score x with Some _ => true | None => false end)
       subtechniques).
Proof.
  intros Hc. unfold counted_scores. rewrite Hc. f_equal.
  induction subtechniques as [|x subs IH]; [reflexivity |].
  simpl. destruct (score x) eqn:Ex; simpl.
  - rewrite Ex, IH. reflexivity.
  - exact IH.
Qed.

(** X20.  When unscored subtechniques are not counted they do not weigh on
    the aggregate: it is the aggregate of the technique with its scored
    subtechniques alone. *)
Theorem compute_aggregate_ignores_unscored (self : Layout) (technique : Technique)
    (subtechniques : list Technique) :
  is_true (countUnscored self) = false ->
  compute_aggregate self technique subtechniques =
  compute_aggregate self technique
    (List.filter (fun x => match score x with Some _ => true | None => false end)
       subtechniques).
Proof.
  intros Hc. unfold compute_aggregate.
  rewrite <- (counted_scores_unscored_off self technique subtechniques Hc).
  reflexivity.
Qed.

Lemma fold_add_acc (l : list Z) :
  forall a, fold_left Z.add l a = (a + fold_left Z.add l 0)%Z.
Proof.
  induction l as [|x l IH]; intros a; simpl; [lia |].
  rewrite (IH (a + x)%Z), (IH (0 + x)%Z). lia.
Qed.

Lemma py_sum_app (l1 l2 : list Z) : py_sum (l1 ++ l2) = (py_sum l1 + py_sum l2)%Z.
Proof.
  unfold py_sum. rewrite fold_left_app, fold_add_acc. reflexivity.
Qed.

Lemma counted_scores_sum (self1 self2 : Layout) (technique : Technique)
    (subtechniques : list Technique) :
  py_sum (counted_scores self1 technique subtechniques) =
  py_sum (counted_scores self2 technique subtechniques) /\
  forallb (fun x => (x =? 0)%Z) (counted_scores self1 technique subtechniques) =
  forallb (fun x => (x =? 0)%Z) (counted_scores self2 technique subtechniques).
Proof.
  unfold counted_scores. rewrite !py_sum_app, !forallb_app.
  assert (H : py_sum (List.flat_map
                 (fun x => match score x with
                           | Some s => [s]
                           | None => if is_true (countUnscored self1) then [0%Z] else []
                           end) subtechniques) =
              py_sum (List.flat_map
                 (fun x => match score x with
                           | Some s => [s]
                           | None => if is_true (countUnscored self2) then [0%Z] else []
                           end) subtechniques) /\
              forallb (fun x => (x =? 0)%Z) (List.flat_map
                 (fun x => match score x with
                           | Some s => [s]
                           | None => if is_true (countUnscored self1) then [0%Z] else []
                           end) subtechniques) =
              forallb (fun x => (x =? 0)%Z) (List.flat_map
                 (fun x => match score x with
                           | Some s => [s]
                           | None => if is_true (countUnscored self2) then [0%Z] else []
                           end) subtechniques)).
  { induction subtechniques as [|x subs [IH1 IH2]]; [split; reflexivity |].
    simpl. rewrite !py_sum_app, !forallb_app, IH1, IH2.
    destruct (score x); [split; reflexivity |].
    destruct (is_true (countUnscored self1)), (is_true (countUnscored self2));
      split; reflexivity. }
  destruct H as [-> ->]. split; reflexivity.
Qed.

(** X21.  With the sum as aggregate function, counting the unscored
    subtechniques or not makes no difference to the result. *)
Theorem compute_aggregate_sum_unscored (self1 self2 : Layout) (technique : Technique)
    (subtechniques : list Technique) :
  aggregateFunction self1 = Aggregates.sum ->
  aggregateFunction self2 = Aggregates.sum ->
  showAggregateScores self1 = showAggregateScores self2 ->
  compute_aggregate self1 technique subtechniques =
  compute_aggregate self2 technique subtechniques.
Proof.
  intros H1 H2 Hs. unfold compute_aggregate, aggFunction. rewrite H1, H2, Hs.
  destruct (counted_scores_sum self1 self2 technique subtechniques) as [-> ->].
  reflexivity.
Qed.

End AggregateScores.

(** * The index that is returned *)

Section ReturnedIndex.

Variable isoparse : string -> Z.
Variable isoformat : Z -> string.

Lemma generate_index_ok_inv (fs : FileSystem) (name description root_url : string)
    (files folders : option (list string)) (bundles : option (list loc))
    (uuid : string) (w w' : world) (idx : Index) :
  generate_index isoparse isoformat fs name description root_url files folders
    bundles uuid w = (w', Ok idx) ->
  exists t,
    build_table isoparse fs root_url files folders bundles w = (w', Ok t) /\
    table_inv isoparse t /\
    Forall2 finalized (table_values t) (i_collections idx) /\
    i_id idx = uuid /\ i_name idx = name /\ i_description idx = description.
Proof.
  intros H. rewrite generate_index_unfold in H.
  destruct (build_table isoparse fs root_url files folders bundles w)
    as [w1 [t | e]] eqn:Eb; [| discriminate].
  destruct (assemble isoparse (table_values t) None None)
    as [[[out ic] im] | e] eqn:Ea; [| discriminate].
  unfold finish in H. destruct ic as [ic |]; [| discriminate].
  destruct im as [im |]; [| discriminate].
  injection H as -> <-. simpl. exists t.
  apply assemble_ok in Ea as (Hf & _ & _).
  pose proof (build_table_inv _ _ _ _ _ _ _ _ _ Eb) as Hinv.
  repeat split; assumption.
Qed.

Lemma strip_version_sorted (l : list Version) :
  desc_sorted isoparse l ->
  StronglySorted (fun a b => (isoparse (iv_modified b) <= isoparse (iv_modified a))%Z)
    (List.map strip_version l).
Proof.
  unfold desc_sorted. induction 1 as [|v l _ IH Hv]; simpl; constructor; [exact IH |].
  rewrite List.Forall_forall in *. intros iv Hiv.
  apply in_map_iff in Hiv as (u & <- & Hu). exact (Hv u Hu).
Qed.

(** X22.  In the index returned every collection has at least one version,
    and its versions stand in descending order of [modified]: the most
    recently modified first. *)
Theorem generate_index_versions_descending (fs : FileSystem)
    (name description root_url : string) (files folders : option (list string))
    (bundles : option (list loc)) (uuid : string) (w w' : world) (idx : Index) :
  generate_index isoparse isoformat fs name description root_url files folders
    bundles uuid w = (w', Ok idx) ->
  Forall
    (fun out =>
       ic_versions out <> [] /\
       StronglySorted
         (fun a b => (isoparse (iv_modified b) <= isoparse (iv_modified a))%Z)
         (ic_versions out))
    (i_collections idx).
Proof.
  intros H. apply generate_index_ok_inv in H as (t & _ & Hinv & Hf & _).
  unfold table_inv in Hinv. revert Hinv.
  induction Hf as [|c out cs outs (_ & _ & Hvs & _) _ IH]; intros Hinv; [constructor |].
  apply Forall_cons_iff in Hinv as [[Hne Hs] Hinv].
  constructor; [| apply IH, Hinv]. rewrite Hvs. split.
  - destruct (c_versions c); [contradiction | discriminate].
  - apply strip_version_sorted, Hs.
Qed.

(** X23.  The index shows the table as it is: the records in the order of
    the table, each with its [id] and [created], and each version with its
    [version], [url] and [modified], in the order of the record; the [id],
    [name] and [description] of the index are the uuid4 value and the
    arguments of the call. *)
Theorem generate_index_mirrors_table (fs : FileSystem)
    (name description root_url : string) (files folders : option (list string))
    (bundles : option (list loc)) (uuid : string) (w w' : world) (idx : Index) :
  generate_index isoparse isoformat fs name description root_url files folders
    bundles uuid w = (w', Ok idx) ->
  exists collections,
    build_table isoparse fs root_url files folders bundles w = (w', Ok collections) /\
    i_id idx = uuid /\ i_name idx = name /\ i_description idx = description /\
    List.map ic_id (i_collections idx) = List.map c_id (table_values collections) /\
    List.map ic_created (i_collections idx) =
      List.map c_created (table_values collections) /\
    List.map ic_versions (i_collections idx) =
      List.map (fun c => List.map strip_version (c_versions c))
        (table_values collections).
Proof.
  intros H. apply generate_index_ok_inv in H as (t & Hb & _ & Hf & Hi & Hn & Hd).
  exists t. repeat split; try assumption;
    induction Hf as [|c out cs outs (Hid & Hc & Hvs & _) _ IH]; simpl;
    try reflexivity; rewrite IH; congruence.
Qed.

End ReturnedIndex.

(** * More of the code on the sample inputs *)

Lemma extract_collection_well_keyed_witness :
  well_keyed [] /\
  well_keyed (extract_collection isoparse_digits
                [collection_A; technique; collection_Y; collection_B] [] "http://r/a").
Proof.
  assert (H : well_keyed []) by (split; constructor).
  split; [exact H |].
  apply (extract_collection_well_keyed isoparse_digits
           [collection_A; technique; collection_Y; collection_B] [] "http://r/a").
  exact H.
Defined.

Lemma extract_collection_frame_witness :
  objects_of "Y" [collection_A; technique; collection_B] = [] /\
  table_get "Y" (extract_collection isoparse_digits [collection_A; technique; collection_B]
                   (extract_collection isoparse_digits [collection_Y] [] "http://r/y")
                   "http://r/a") =
  table_get "Y" (extract_collection isoparse_digits [collection_Y] [] "http://r/y").
Proof.
  split; [reflexivity |].
  apply (extract_collection_frame isoparse_digits [collection_A; technique; collection_B]
           (extract_collection isoparse_digits [collection_Y] [] "http://r/y")
           "http://r/a" "Y").
  reflexivity.
Defined.

Lemma extract_collection_order_irrelevant_witness :
  versions_of "X" (extract_collection isoparse_digits [collection_A; collection_B] []
                     "http://r/a") =
  versions_of "X" (extract_collection isoparse_digits [collection_B; collection_A] []
                     "http://r/a").
Proof.
  apply (extract_collection_order_irrelevant isoparse_digits
           [collection_A; collection_B] [collection_B; collection_A] [] "http://r/a" "X").
  - apply perm_swap.
  - constructor.
  - apply (bool_decide_unpack _). vm_compute. exact I.
Defined.

Lemma generate_index_files_read_in_order_witness :
  Forall (loadable sample_fs) ["a.json"; "dir/foo-1.1.json"] /\
  fst (generate_index isoparse_digits isoformat_digits sample_fs "index" "demo"
         "http://r/" (Some ["a.json"; "dir/foo-1.1.json"]) None None "uuid-1"
         (start sample_store)) =
  {| w_store := sample_store;
     w_trace := [EOpen "a.json"; EOpen "dir/foo-1.1.json"] |}.
Proof.
  assert (H : Forall (loadable sample_fs) ["a.json"; "dir/foo-1.1.json"]).
  { repeat constructor; eexists; reflexivity. }
  split; [exact H |].
  apply (generate_index_files_read_in_order isoparse_digits isoformat_digits sample_fs
           "index" "demo" "http://r/" (Some ["a.json"; "dir/foo-1.1.json"]) None None
           "uuid-1" sample_store); [reflexivity | reflexivity | exact H].
Defined.

Lemma generate_index_stops_at_unreadable_file_witness :
  fs_load sample_fs "missing.json" = Raise FileNotFoundError /\
  generate_index isoparse_digits isoformat_digits sample_fs "index" "demo" "http://r/"
    (Some (["a.json"] ++ "missing.json" :: ["dir/foo-1.1.json"])) None None "uuid-1"
    (start sample_store) =
  ({| w_store := sample_store;
      w_trace := List.map EOpen (["a.json"] ++ ["missing.json"]) |},
   Raise FileNotFoundError).
Proof.
  split; [reflexivity |].
  apply (generate_index_stops_at_unreadable_file isoparse_digits isoformat_digits
           sample_fs "index" "demo" "http://r/" ["a.json"] "missing.json"
           ["dir/foo-1.1.json"] None None "uuid-1" sample_store FileNotFoundError).
  - reflexivity.
  - reflexivity.
  - repeat constructor. eexists. reflexivity.
  - reflexivity.
Defined.

Lemma generate_index_lists_before_reading_witness :
  Forall (listable sample_fs) ["dir"; "backup"] /\
  w_trace (fst (generate_index isoparse_digits isoformat_digits sample_fs "index" "demo"
                  "http://r" None (Some ["dir"; "backup"]) None "uuid-1" (start ∅))) =
  [EListdir "dir"; EListdir "backup"; EOpen "dir/foo-1.0.json";
   EOpen "dir/foo-1.1.json"; EOpen "backup/foo-1.0.json.bak"].
Proof.
  assert (H : Forall (listable sample_fs) ["dir"; "backup"]).
  { repeat constructor; eexists; reflexivity. }
  split; [exact H |].
  rewrite (generate_index_lists_before_reading isoparse_digits isoformat_digits sample_fs
             "index" "demo" "http://r" None (Some ["dir"; "backup"]) None "uuid-1" ∅).
  - reflexivity.
  - reflexivity.
  - reflexivity.
  - reflexivity.
  - exact H.
  - repeat constructor; eexists; reflexivity.
Defined.

Lemma generate_index_stops_at_unlistable_folder_witness :
  fs_listdir sample_fs "nowhere" = Raise FileNotFoundError /\
  generate_index isoparse_digits isoformat_digits sample_fs "index" "demo" "http://r"
    None (Some (["dir"] ++ "nowhere" :: ["backup"])) (Some [1%nat]) "uuid-1"
    (start sample_store) =
  ({| w_store := sample_store;
      w_trace := List.map EListdir (["dir"] ++ ["nowhere"]) |},
   Raise FileNotFoundError).
Proof.
  split; [reflexivity |].
  apply (generate_index_stops_at_unlistable_folder isoparse_digits isoformat_digits
           sample_fs "index" "demo" "http://r" None ["dir"] "nowhere" ["backup"]
           (Some [1%nat]) "uuid-1" sample_store FileNotFoundError).
  - reflexivity.
  - repeat constructor. eexists. reflexivity.
  - reflexivity.
Defined.

Lemma scan_folders_candidates_witness :
  exists w' found,
    scan_folders sample_fs ["dir"] (start ∅) = (w', Ok found) /\
    (In "dir/foo-1.0.json" found <->
     exists folder names entry,
       In folder ["dir"] /\ fs_listdir sample_fs folder = Ok names /\ In entry names /\
       (exists p q, entry = String.append p q /\ matches version_regex p) /\
       "dir/foo-1.0.json" = os_path_join folder entry).
Proof.
  eexists _, _. split; [vm_compute; reflexivity |].
  eapply (scan_folders_candidates sample_fs ["dir"] (start ∅)).
  vm_compute. reflexivity.
Defined.

Lemma generate_index_version_origin_witness :
  exists w' idx,
    generate_index isoparse_digits isoformat_digits sample_fs "index" "demo" "http://r"
      (Some ["a.json"]) None (Some [1%nat]) "uuid-1" (start sample_store) = (w', Ok idx) /\
    forall out iv,
      In out (i_collections idx) -> In iv (ic_versions out) ->
      exists v,
        iv = strip_version v /\
        ((exists file, In (EOpen file) (w_trace w') /\
                       from_file sample_fs "http://r" (ic_id out) file v) \/
         (exists b, In b (list_of (Some [1%nat])) /\
                    from_bundle sample_store (ic_id out) b v)).
Proof.
  eexists _, _. split; [vm_compute; reflexivity |].
  eapply (generate_index_version_origin isoparse_digits isoformat_digits sample_fs
            "index" "demo" "http://r" (Some ["a.json"]) None (Some [1%nat]) "uuid-1"
            sample_store).
  vm_compute. reflexivity.
Defined.

Lemma generate_index_consumes_bundles_witness :
  exists w' idx,
    generate_index isoparse_digits isoformat_digits sample_fs "index" "demo" "http://r"
      None None (Some [1%nat]) "uuid-1" (start sample_store) = (w', Ok idx) /\
    forall b ov,
      In b [1%nat] -> objects_at (w_store w') b = Some ov ->
      offers_collection ov = false.
Proof.
  eexists _, _. split; [vm_compute; reflexivity |].
  eapply (generate_index_consumes_bundles isoparse_digits isoformat_digits sample_fs
           "index" "demo" "http://r" None None (Some [1%nat]) "uuid-1" sample_store).
  vm_compute. reflexivity.
Defined.

Lemma generate_index_last_version_exists_witness :
  exists w' collections,
    build_table isoparse_digits sample_fs "http://r" (Some ["a.json"]) None
      (Some [1%nat]) (start sample_store) = (w', Ok collections) /\
    Forall (fun c => exists v, last_item (c_versions c) = Some v)
      (table_values collections).
Proof.
  eexists _, _. split; [vm_compute; reflexivity |].
  eapply (generate_index_last_version_exists isoparse_digits sample_fs "http://r"
            (Some ["a.json"]) None (Some [1%nat]) (start sample_store)).
  vm_compute. reflexivity.
Defined.

Lemma version_regex_requirements_witness :
  re_match version_regex "enterprise-attack-8.2.json" = true /\
  (exists a s', "enterprise-attack-8.2.json" = String a s' /\ is_word a = true) /\
  string_exists (fun a => Ascii.eqb a "-") "enterprise-attack-8.2.json" = true /\
  string_exists is_digit "enterprise-attack-8.2.json" = true.
Proof.
  split; [vm_compute; reflexivity |].
  apply (version_regex_requirements "enterprise-attack-8.2.json").
  vm_compute. reflexivity.
Defined.

Lemma main_prints_only_writing_witness :
  parsed (args_folder "dir") /\
  In (CPrint "writing index.json")
     (fst (main isoparse_digits isoformat_digits open_any sample_fs (args_folder "dir")
             "uuid-1")) /\
  forall msg,
    ~ In (CInner (EPrint msg))
        (fst (main isoparse_digits isoformat_digits open_any sample_fs
                (args_folder "dir") "uuid-1")).
Proof.
  assert (Hp : parsed (args_folder "dir")) by (right; split; reflexivity).
  split; [exact Hp |]. split.
  - vm_compute. do 4 right. left. reflexivity.
  - apply (main_prints_only_writing isoparse_digits isoformat_digits open_any sample_fs
             (args_folder "dir") "uuid-1" Hp).
Defined.

Lemma main_without_candidates_witness :
  List.flat_map (candidates docs_fs) ["docs"] = [] /\
  main isoparse_digits isoformat_digits open_any docs_fs (args_folder "docs") "uuid-1" =
  ([CTruncate "index.json"; CInner (EListdir "docs")], Raise AttributeError).
Proof.
  split; [vm_compute; reflexivity |].
  apply (main_without_candidates isoparse_digits isoformat_digits open_any docs_fs
           (args_folder "docs") "uuid-1" ["docs"]).
  - reflexivity.
  - reflexivity.
  - discriminate.
  - reflexivity.
  - repeat constructor. eexists. reflexivity.
  - vm_compute. reflexivity.
Defined.

Lemma compute_aggregate_never_raises_witness :
  aggregateFunction (layout_with Aggregates.min true) <> Aggregates.average /\
  is_true (showAggregateScores (layout_with Aggregates.min true)) = true /\
  (exists r, compute_aggregate (layout_with Aggregates.min true) unscored [] =
             Returns r) /\
  aggFunction (layout_with Aggregates.min true) [] = Raises ValueError.
Proof.
  pose proof (compute_aggregate_never_raises (layout_with Aggregates.min true)
                unscored []) as (_ & _ & Hret & Hdirect).
  split; [discriminate |]. split; [reflexivity |]. split.
  - apply Hret. discriminate.
  - apply Hdirect. reflexivity.
Defined.

Lemma compute_aggregate_value_witness :
  compute_aggregate (layout_with Aggregates.min true) (scored 4) [scored 7; unscored] =
    Returns (Some (NInt 0)) /\
  exists m, NInt 0 = NInt m /\
            In m (counted_scores (layout_with Aggregates.min true) (scored 4)
                    [scored 7; unscored]) /\
            forall s, In s (counted_scores (layout_with Aggregates.min true) (scored 4)
                              [scored 7; unscored]) -> (m <= s)%Z.
Proof.
  split; [reflexivity |].
  apply (compute_aggregate_value (layout_with Aggregates.min true) (scored 4)
           [scored 7; unscored] (NInt 0)).
  reflexivity.
Defined.

Lemma compute_aggregate_ignores_unscored_witness :
  is_true (countUnscored (layout_with Aggregates.min false)) = false /\
  compute_aggregate (layout_with Aggregates.min false) (scored 4) [scored 7; unscored] =
  compute_aggregate (layout_with Aggregates.min false) (scored 4) [scored 7].
Proof.
  split; [reflexivity |].
  apply (compute_aggregate_ignores_unscored (layout_with Aggregates.min false) (scored 4)
           [scored 7; unscored]).
  reflexivity.
Defined.

Lemma compute_aggregate_sum_unscored_witness :
  compute_aggregate (layout_with Aggregates.sum true) (scored 4) [scored 7; unscored] =
  compute_aggregate (layout_with Aggregates.sum false) (scored 4) [scored 7; unscored].
Proof.
  apply (compute_aggregate_sum_unscored (layout_with Aggregates.sum true)
           (layout_with Aggregates.sum false) (scored 4) [scored 7; unscored]);
    reflexivity.
Defined.

Lemma generate_index_versions_descending_witness :
  exists w' idx,
    generate_index isoparse_digits isoformat_digits sample_fs "index" "demo" "http://r"
      None (Some ["dir"]) None "uuid-1" (start ∅) = (w', Ok idx) /\
    Forall
      (fun out =>
         ic_versions out <> [] /\
         StronglySorted
           (fun a b => (isoparse_digits (iv_modified b) <= isoparse_digits (iv_modified a))%Z)
           (ic_versions out))
      (i_collections idx).
Proof.
  eexists _, _. split; [vm_compute; reflexivity |].
  eapply (generate_index_versions_descending isoparse_digits isoformat_digits sample_fs
            "index" "demo" "http://r" None (Some ["dir"]) None "uuid-1" (start ∅)).
  vm_compute. reflexivity.
Defined.

Lemma generate_index_mirrors_table_witness :
  exists w' idx,
    generate_index isoparse_digits isoformat_digits sample_fs "index" "demo" "http://r"
      None (Some ["dir"]) None "uuid-1" (start ∅) = (w', Ok idx) /\
    exists collections,
      build_table isoparse_digits sample_fs "http://r" None (Some ["dir"]) None (start ∅)
        = (w', Ok collections) /\
      i_id idx = "uuid-1" /\ i_name idx = "index" /\ i_description idx = "demo" /\
      List.map ic_id (i_collections idx) = List.map c_id (table_values collections) /\
      List.map ic_created (i_collections idx) =
        List.map c_created (table_values collections) /\
      List.map ic_versions (i_collections idx) =
        List.map (fun c => List.map strip_version (c_versions c))
          (table_values collections).
Proof.
  eexists _, _. split; [vm_compute; reflexivity |].
  eapply (generate_index_mirrors_table isoparse_digits isoformat_digits sample_fs
            "index" "demo" "http://r" None (Some ["dir"]) None "uuid-1" (start ∅)).
  vm_compute. reflexivity.
Defined.
